(** * ACE-Step 1.5 API helpers: job worker loops and audio-path handling

    A shallow embedding of
      - [acestep/api/jobs/worker_loops.py]   ([process_queue_item],
        [run_job_store_cleanup_loop]),
      - [acestep/api/jobs/test_fakes.py]     ([_FakeStore], [_FakeJobQueue],
        [_DoneEvent]),
      - [acestep/api/http/release_task_audio_paths.py]
        ([validate_audio_path], [save_upload_to_temp]),
    together with the properties the specification states about them.

    Python objects are mutable and shared by reference, and every statement
    may raise.  Both are made explicit: code runs in a state-and-exception
    monad [M], job records live in a heap indexed by references, and the
    calls a routine makes to its collaborators are appended to a trace. *)

From Stdlib Require Import ZArith Lia Strings.Ascii Strings.String Strings.Byte.
From stdpp Require Import base option list strings gmap pretty.

Local Open Scope Z_scope.
Local Open Scope nat_scope.

(** ** Python exceptions and outcomes *)

Module Py.

(** The exception classes that matter to the embedded code.  Only the last
    three are not subclasses of [Exception]. *)
Inductive ExcClass :=
| RuntimeError | ValueError | TypeError | IndexError | AttributeError
| OSError | FileNotFoundError | FileExistsError
| NotADirectoryError | IsADirectoryError
| CancelledError | KeyboardInterrupt | SystemExit.

Inductive Exc :=
| PyExc (cls : ExcClass) (msg : string)
| HTTPException (status_code : Z) (detail : string).

(** [isinstance(e, Exception)]: what an [except Exception] clause catches.
    [asyncio.CancelledError] derives from [BaseException] only. *)
Definition is_Exception (e : Exc) : bool :=
  match e with
  | PyExc (CancelledError | KeyboardInterrupt | SystemExit) _ => false
  | _ => true
  end.

Definition is_CancelledError (e : Exc) : bool :=
  match e with PyExc CancelledError _ => true | _ => false end.

Definition is_ValueError (e : Exc) : bool :=
  match e with PyExc ValueError _ => true | _ => false end.

(** [str(exc)] *)
Definition str (e : Exc) : string :=
  match e with
  | PyExc _ msg => msg
  | HTTPException code detail => pretty code +:+ ": " +:+ detail
  end.

Inductive Outcome (A : Type) :=
| Return (a : A)
| Raise (e : Exc).
Arguments Return {A} a.
Arguments Raise {A} e.

(** Code over a mutable state [S] that returns or raises. *)
Definition M (S A : Type) : Type := S -> Outcome A * S.

Definition ret {S A} (a : A) : M S A := fun s => (Return a, s).

Definition raise {S A} (e : Exc) : M S A := fun s => (Raise e, s).

Definition bind {S A B} (m : M S A) (k : A -> M S B) : M S B :=
  fun s =>
    match m s with
    | (Return a, s') => k a s'
    | (Raise e, s') => (Raise e, s')
    end.

(** [try: body / except <cls> as exc: handler exc]; [catches] is the
    [isinstance] test of the clause. *)
Definition try_except {S A} (body : M S A) (catches : Exc -> bool)
    (handler : Exc -> M S A) : M S A :=
  fun s =>
    match body s with
    | (Return a, s') => (Return a, s')
    | (Raise e, s') => if catches e then handler e s' else (Raise e, s')
    end.

(** A [try] with two [except] clauses: the first clause whose class
    matches handles the exception; a handler's own exception is not
    offered to the other clause. *)
Definition try_except2 {S A} (body : M S A)
    (catches1 : Exc -> bool) (handler1 : Exc -> M S A)
    (catches2 : Exc -> bool) (handler2 : Exc -> M S A) : M S A :=
  fun s =>
    match body s with
    | (Return a, s') => (Return a, s')
    | (Raise e, s') =>
        if catches1 e then handler1 e s'
        else if catches2 e then handler2 e s'
        else (Raise e, s')
    end.

(** [try: body / finally: fin].  The final block always runs; when it
    raises, its exception replaces whatever [body] produced. *)
Definition try_finally {S A} (body : M S A) (fin : M S unit) : M S A :=
  fun s =>
    match body s with
    | (o, s') =>
        match fin s' with
        | (Return _, s'') => (o, s'')
        | (Raise e, s'') => (Raise e, s'')
        end
    end.

(** Truthiness of [Optional[str]] and the [x or default] idiom. *)
Definition str_or (x : option string) (default : string) : string :=
  match x with
  | Some s => if decide (s = "") then default else s
  | None => default
  end.

End Py.

Export Py.

Declare Scope py_scope.
Delimit Scope py_scope with py.
Notation "'let*' x ':=' c 'in' k" := (Py.bind c (fun x => k))
  (at level 10, x name, c at level 100, k at level 200) : py_scope.
Notation "c ';;;' k" := (Py.bind c (fun _ => k))
  (at level 100, k at level 200, right associativity) : py_scope.
Local Open Scope py_scope.

(** ** [test_fakes.py] and the job record *)

Module test_fakes.

(** References to job-record objects. *)
Definition loc := nat.

(** The result payload of a job: a Python dict, truthy when non-empty. *)
Definition Payload := list (string * string).

(** The dicts put on a progress queue. *)
Inductive ProgressEvent :=
| EvResult (result : Payload)            (* {"type": "result", "result": r} *)
| EvError (content : string)             (* {"type": "error", "content": c} *)
| EvDone                                 (* {"type": "done"} *)
| EvOther (type content : string).       (* anything the job body publishes *)

(** class _DoneEvent *)
Record _DoneEvent := { was_set : bool }.

(** Modelled from the spec: the job record class is not part of the
    sources at hand; section 3 of the specification gives its fields.
    [status] is the string the code compares against; [progress_queue]
    holds the events published so far, oldest first. *)
Record JobRecord := {
  status : string;
  result : option Payload;
  error : option string;
  progress_queue : option (list ProgressEvent);
  done_event : option _DoneEvent;
}.

(** class _FakeJobQueue *)
Record _FakeJobQueue := { task_done_calls : nat }.

(** One entry of [_FakeStore.cleanup_returns]: an integer or an
    exception object. *)
Inductive CleanupReturn :=
| Count (n : Z)
| Failure (e : Exc).

(** class _FakeStore; [record] is a reference, so that the store and the
    worker look at the same object. *)
Record _FakeStore := {
  record : option loc;
  mark_failed_calls : list (string * string);
  cleanup_returns : list CleanupReturn;
  cleanup_call_count : Z;
  stats : list (string * Z);
}.

Definition Heap := loc -> JobRecord.

Definition heap_set (h : Heap) (r : loc) (v : JobRecord) : Heap :=
  fun l => if decide (l = r) then v else h l.

(** _FakeJobQueue.task_done *)
Definition task_done (q : _FakeJobQueue) : _FakeJobQueue :=
  {| task_done_calls := S (task_done_calls q) |}.

(** _FakeStore.get *)
Definition get (st : _FakeStore) (_job_id : string) : option loc :=
  record st.

(** _FakeStore.mark_failed *)
Definition mark_failed (st : _FakeStore) (h : Heap) (job_id err : string)
    : _FakeStore * Heap :=
  let st' := {| record := record st;
                mark_failed_calls := mark_failed_calls st ++ [(job_id, err)];
                cleanup_returns := cleanup_returns st;
                cleanup_call_count := cleanup_call_count st;
                stats := stats st |} in
  match record st with
  | Some r =>
      let o := h r in
      (st', heap_set h r {| status := "failed";
                            result := result o;
                            error := Some err;
                            progress_queue := progress_queue o;
                            done_event := done_event o |})
  | None => (st', h)
  end.

(** Python list indexing [l[i]], negative indices counting from the end. *)
Definition py_index {A} (l : list A) (i : Z) : option A :=
  let n := Z.of_nat (length l) in
  if decide (0 <= i < n)%Z then l !! Z.to_nat i
  else if decide (- n <= i < 0)%Z then l !! Z.to_nat (n + i)
  else None.

(** _FakeStore.cleanup_old_jobs *)
Definition cleanup_old_jobs (st : _FakeStore) : Outcome Z * _FakeStore :=
  let index := Z.min (cleanup_call_count st)
                     (Z.of_nat (length (cleanup_returns st)) - 1) in
  let st' := {| record := record st;
                mark_failed_calls := mark_failed_calls st;
                cleanup_returns := cleanup_returns st;
                cleanup_call_count := cleanup_call_count st + 1;
                stats := stats st |} in
  match py_index (cleanup_returns st) index with
  | None => (Raise (PyExc IndexError "list index out of range"), st')
  | Some (Failure e) =>
      if is_Exception e then (Raise e, st')
      else (Raise (PyExc TypeError "int() argument must be a number"), st')
  | Some (Count n) => (Return n, st')
  end.

(** _FakeStore.get_stats *)
Definition get_stats (st : _FakeStore) : list (string * Z) := stats st.

(** _DoneEvent.set *)
Definition set (_ : _DoneEvent) : _DoneEvent := {| was_set := true |}.

End test_fakes.

Export test_fakes.

(** ** [worker_loops.py] *)

Module worker_loops.

(** [app_state]: the pending job ids, in arrival order, and the queue
    whose slots are acknowledged.  The code removes an id with
    [pending_ids.remove(job_id)] and expects [ValueError] when it is
    absent, which is the behaviour of a list or deque. *)
Record AppState := {
  pending_ids : list string;
  job_queue : _FakeJobQueue;
}.

(** Everything [process_queue_item] and its collaborators can mutate. *)
Record World := {
  heap : Heap;
  store : _FakeStore;
  app_state : AppState;
}.

(** The calls [process_queue_item] itself makes, in order. *)
Inductive Call :=
| call_store_get (job_id : string)
| call_lock_acquire
| call_lock_release
| call_pending_remove (job_id : string)
| call_run_one_job (job_id : string)
| call_put (r : loc) (ev : ProgressEvent)
| call_done_event_set (r : loc)
| call_mark_failed (job_id err : string)
| call_cleanup_job_temp_files (job_id : string)
| call_task_done.

Record Run := {
  world : World;
  trace : list Call;
}.

Definition log_call (c : Call) : M Run unit :=
  fun s => (Return tt, {| world := world s; trace := trace s ++ [c] |}).

(** Runs a collaborator, which sees and changes the world only. *)
Definition external {A} (f : World -> Outcome A * World) : M Run A :=
  fun s =>
    match f (world s) with
    | (o, w) => (o, {| world := w; trace := trace s |})
    end.

Definition set_heap (w : World) (h : Heap) : World :=
  {| heap := h; store := store w; app_state := app_state w |}.

(** [rec.<field>], read through the reference at the time of the access. *)
Definition field {A} (r : loc) (f : JobRecord -> A) : M Run A :=
  fun s => (Return (f (heap (world s) r)), s).

(** [store.get(job_id)] *)
Definition store_get (job_id : string) : M Run (option loc) :=
  log_call (call_store_get job_id) ;;;
  fun s => (Return (get (store (world s)) job_id), s).

(** [store.mark_failed(job_id, error)] *)
Definition store_mark_failed (job_id err : string) : M Run unit :=
  log_call (call_mark_failed job_id err) ;;;
  external (fun w =>
    match mark_failed (store w) (heap w) job_id err with
    | (st, h) => (Return tt, {| heap := h; store := st; app_state := app_state w |})
    end).

(** [list.remove(x)]: drops the first occurrence, [None] when absent. *)
Fixpoint list_remove (x : string) (l : list string) : option (list string) :=
  match l with
  | [] => None
  | y :: l' => if decide (y = x) then Some l'
               else cons y <$> list_remove x l'
  end.

(** [app_state.pending_ids.remove(job_id)] *)
Definition pending_remove (job_id : string) : M Run unit :=
  log_call (call_pending_remove job_id) ;;;
  external (fun w =>
    match list_remove job_id (pending_ids (app_state w)) with
    | Some l =>
        (Return tt,
         {| heap := heap w; store := store w;
            app_state := {| pending_ids := l;
                            job_queue := job_queue (app_state w) |} |})
    | None => (Raise (PyExc ValueError "list.remove(x): x not in list"), w)
    end).

(** [async with app_state.pending_lock: body] *)
Definition with_pending_lock {A} (body : M Run A) : M Run A :=
  log_call call_lock_acquire ;;;
  try_finally body (log_call call_lock_release).

(** [await rec.progress_queue.put(ev)] *)
Definition put (r : loc) (ev : ProgressEvent) : M Run unit :=
  let* q := field r progress_queue in
  match q with
  | None => raise (PyExc AttributeError "'NoneType' object has no attribute 'put'")
  | Some evs =>
      log_call (call_put r ev) ;;;
      external (fun w =>
        let o := heap w r in
        (Return tt,
         set_heap w (heap_set (heap w) r
           {| status := status o; result := result o; error := error o;
              progress_queue := Some (evs ++ [ev]);
              done_event := done_event o |})))
  end.

(** [rec.done_event.set()] *)
Definition done_event_set (r : loc) : M Run unit :=
  let* d := field r done_event in
  match d with
  | None => raise (PyExc AttributeError "'NoneType' object has no attribute 'set'")
  | Some ev =>
      log_call (call_done_event_set r) ;;;
      external (fun w =>
        let o := heap w r in
        (Return tt,
         set_heap w (heap_set (heap w) r
           {| status := status o; result := result o; error := error o;
              progress_queue := progress_queue o;
              done_event := Some (set ev) |})))
  end.

(** [app_state.job_queue.task_done()] *)
Definition queue_task_done : M Run unit :=
  log_call call_task_done ;;;
  external (fun w =>
    (Return tt,
     {| heap := heap w; store := store w;
        app_state := {| pending_ids := pending_ids (app_state w);
                        job_queue := task_done (job_queue (app_state w)) |} |})).

(** [if rec and rec.<field>: body]; a record object, a queue and an event
    are all truthy, [None] is not. *)
Definition if_rec_and {A} (rec : option loc) (f : JobRecord -> option A)
    (body : loc -> M Run unit) : M Run unit :=
  match rec with
  | None => ret tt
  | Some r =>
      let* x := field r f in
      if bool_decide (is_Some x) then body r else ret tt
  end.

(** Truthiness of [rec.result]. *)
Definition truthy_result (x : option Payload) : bool :=
  match x with
  | Some (_ :: _) => true
  | _ => false
  end.

(** [status in ("succeeded", "failed")] *)
Definition terminal (st : string) : bool :=
  bool_decide (st = "succeeded") || bool_decide (st = "failed").

Section process.

Variable Req : Type.
Variable run_one_job : string -> Req -> World -> Outcome unit * World.
Variable cleanup_job_temp_files : string -> World -> Outcome unit * World.

(** Lines 30-34: the id leaves the pending list under the lock; its
    absence is ignored. *)
Definition claim_job (job_id : string) : M Run unit :=
  with_pending_lock
    (try_except (pending_remove job_id) is_ValueError (fun _ => ret tt)).

(** Line 36: [await run_one_job(job_id, req)] *)
Definition dispatch (job_id : string) (req : Req) : M Run unit :=
  log_call (call_run_one_job job_id) ;;;
  external (run_one_job job_id req).

(** Lines 38-45: notification after a normal return of the job. *)
Definition notify_outcome (rec : option loc) : M Run unit :=
  if_rec_and rec progress_queue (fun r =>
    (let* st := field r status in
     let* res := field r result in
     if bool_decide (st = "succeeded") && truthy_result res
     then put r (EvResult (default [] res))
     else if bool_decide (st = "failed")
     then (let* err := field r error in
           put r (EvError (str_or err "Generation failed")))
     else ret tt) ;;;
    put r EvDone) ;;;
  if_rec_and rec done_event done_event_set.

(** The body of the outer [try]. *)
Definition process_body (job_id : string) (req : Req) (rec : option loc)
    : M Run unit :=
  claim_job job_id ;;;
  dispatch job_id req ;;;
  notify_outcome rec.

(** Lines 48-49: a record that is not yet terminal is marked failed. *)
Definition mark_unless_terminal (job_id : string) (rec : option loc)
    (exc : Exc) : M Run unit :=
  match rec with
  | None => ret tt
  | Some r =>
      let* st := field r status in
      if negb (terminal st) then store_mark_failed job_id (str exc)
      else ret tt
  end.

(** Lines 50-54: notification after a failure of the job. *)
Definition notify_failure (rec : option loc) (exc : Exc) : M Run unit :=
  if_rec_and rec progress_queue (fun r =>
    put r (EvError (str exc)) ;;;
    put r EvDone) ;;;
  if_rec_and rec done_event done_event_set.

(** The [except Exception as exc] clause. *)
Definition process_handler (job_id : string) (rec : option loc) (exc : Exc)
    : M Run unit :=
  mark_unless_terminal job_id rec exc ;;;
  notify_failure rec exc.

(** The [finally] clause. *)
Definition process_finally (job_id : string) : M Run unit :=
  (log_call (call_cleanup_job_temp_files job_id) ;;;
   external (cleanup_job_temp_files job_id)) ;;;
  queue_task_done.

Definition process_queue_item (job_id : string) (req : Req) : M Run unit :=
  let* rec := store_get job_id in
  try_finally
    (try_except (process_body job_id req rec) is_Exception
                (process_handler job_id rec))
    (process_finally job_id).

End process.

(** *** [run_job_store_cleanup_loop] *)

(** The calls the cleanup loop makes, in order.  [call_log_fn] carries
    the formatted message. *)
Inductive LoopCall :=
| call_sleep_fn (seconds : Z)
| call_cleanup_old_jobs
| call_get_stats
| call_log_fn (msg : string).

Section cleanup_loop.

(** Whatever [sleep_fn] keeps between calls (a tick counter, a clock). *)
Variable Env : Type.

Record LoopWorld := {
  loop_store : _FakeStore;
  loop_env : Env;
}.

Record LoopRun := {
  loop_world : LoopWorld;
  loop_trace : list LoopCall;
}.

Variable sleep_fn : Z -> LoopWorld -> Outcome unit * LoopWorld.

Definition loop_call (c : LoopCall) : M LoopRun unit :=
  fun s => (Return tt, {| loop_world := loop_world s;
                          loop_trace := loop_trace s ++ [c] |}).

(** [await sleep_fn(cleanup_interval_seconds)] *)
Definition await_sleep (seconds : Z) : M LoopRun unit :=
  loop_call (call_sleep_fn seconds) ;;;
  fun s =>
    match sleep_fn seconds (loop_world s) with
    | (o, w) => (o, {| loop_world := w; loop_trace := loop_trace s |})
    end.

(** [store.cleanup_old_jobs()] *)
Definition store_cleanup_old_jobs : M LoopRun Z :=
  loop_call call_cleanup_old_jobs ;;;
  fun s =>
    match cleanup_old_jobs (loop_store (loop_world s)) with
    | (o, st) =>
        (o, {| loop_world := {| loop_store := st;
                                loop_env := loop_env (loop_world s) |};
               loop_trace := loop_trace s |})
    end.

(** [store.get_stats()] *)
Definition store_get_stats : M LoopRun (list (string * Z)) :=
  loop_call call_get_stats ;;;
  fun s => (Return (get_stats (loop_store (loop_world s))), s).

(** [log_fn(msg)]: [print], or a collector, neither of which raises. *)
Definition log_fn (msg : string) : M LoopRun unit :=
  loop_call (call_log_fn msg).

(** [repr] of the stats dict, as the f-string renders it. *)
Definition repr_stats (stats : list (string * Z)) : string :=
  "{" +:+ String.concat ", "
            ((fun kv => "'" +:+ kv.1 +:+ "': " +:+ pretty kv.2) <$> stats)
      +:+ "}".

Definition cleaned_up_msg (removed : Z) (stats : list (string * Z)) : string :=
  "[API Server] Cleaned up " +:+ pretty removed
    +:+ " old jobs. Current stats: " +:+ repr_stats stats.

Definition cleanup_error_msg (exc : Exc) : string :=
  "[API Server] Job cleanup error: " +:+ str exc.

(** Lines 70-74, the body of the [try]. *)
Definition sweep (cleanup_interval_seconds : Z) : M LoopRun unit :=
  await_sleep cleanup_interval_seconds ;;;
  let* removed := store_cleanup_old_jobs in
  if bool_decide (removed > 0)%Z
  then (let* stats := store_get_stats in
        log_fn (cleaned_up_msg removed stats))
  else ret tt.

(** What one pass through the [while True] body decides. *)
Inductive LoopStep := Continue | Break.

(** Lines 69-78. *)
Definition iteration (cleanup_interval_seconds : Z) : M LoopRun LoopStep :=
  try_except2
    (sweep cleanup_interval_seconds ;;; ret Continue)
    is_CancelledError (fun _ => ret Break)
    is_Exception (fun exc => log_fn (cleanup_error_msg exc) ;;; ret Continue).

(** Where the loop stands after at most [ticks] passes: it returned
    (after [break]), an exception left it, or it is still looping. *)
Inductive LoopResult :=
| Returned (s : LoopRun)
| Unwound (e : Exc) (s : LoopRun)
| Running (s : LoopRun).

Fixpoint run_job_store_cleanup_loop (ticks : nat)
    (cleanup_interval_seconds : Z) (s : LoopRun) : LoopResult :=
  match ticks with
  | 0 => Running s
  | S n =>
      match iteration cleanup_interval_seconds s with
      | (Return Continue, s') =>
          run_job_store_cleanup_loop n cleanup_interval_seconds s'
      | (Return Break, s') => Returned s'
      | (Raise e, s') => Unwound e s'
      end
  end.

End cleanup_loop.

End worker_loops.

Export worker_loops.

(** ** The parts of [os.path] (POSIX flavour) the validator relies on *)

Module posixpath.

Definition sep : string := "/".

(** [s.split("/")] *)
Fixpoint split (s : string) : list string :=
  match s with
  | EmptyString => [EmptyString]
  | String c s' =>
      if decide (c = "/"%char) then EmptyString :: split s'
      else match split s' with
           | [] => [String c EmptyString]
           | h :: t => String c h :: t
           end
  end.

(** ["/".join(comps)] *)
Definition join_comps (comps : list string) : string := String.concat sep comps.

Definition startswith (p s : string) : bool := String.prefix p s.

(** [os.path.isabs] *)
Definition isabs (s : string) : bool := startswith sep s.

(** [os.path.join(a, b)] *)
Definition join (a b : string) : string :=
  if startswith sep b then b
  else if bool_decide (a = "") || bool_decide (String.substring (String.length a - 1) 1 a = sep)
  then a +:+ b
  else a +:+ sep +:+ b.

(** One step of the loop of [normpath] over the components. *)
Definition normpath_step (initial_slashes : nat) (new_comps : list string)
    (comp : string) : list string :=
  if bool_decide (comp = "") || bool_decide (comp = ".") then new_comps
  else if negb (bool_decide (comp = ".."))
          || (bool_decide (initial_slashes = 0) && bool_decide (new_comps = []))
          || (negb (bool_decide (new_comps = []))
              && bool_decide (last new_comps = Some ".."))
  then new_comps ++ [comp]
  else if negb (bool_decide (new_comps = [])) then removelast new_comps
  else new_comps.

(** [os.path.normpath] *)
Definition normpath (path : string) : string :=
  if bool_decide (path = "") then "."
  else
    let initial_slashes :=
      if startswith "/" path
      then (if startswith "//" path && negb (startswith "///" path) then 2 else 1)
      else 0 in
    let comps := foldl (normpath_step initial_slashes) [] (split path) in
    let path' := join_comps comps in
    let path'' :=
      match initial_slashes with
      | 0 => path'
      | 1 => "/" +:+ path'
      | _ => "//" +:+ path'
      end in
    if bool_decide (path'' = "") then "." else path''.

(** [os.path.abspath], with the working directory made explicit. *)
Definition abspath (cwd path : string) : string :=
  normpath (if isabs path then path else join cwd path).

(** Python's [<] on lists of strings: the first differing position
    decides, a proper prefix is smaller. *)
Fixpoint list_lt (a b : list string) : bool :=
  match a, b with
  | [], [] => false
  | [], _ :: _ => true
  | _ :: _, [] => false
  | x :: a', y :: b' =>
      if decide (x = y) then list_lt a' b' else String.ltb x y
  end.

(** [min(l)] and [max(l)] for a non-empty [x :: l]: the first extremal
    element wins. *)
Definition py_min (x : list string) (l : list (list string)) : list string :=
  foldl (fun cur e => if list_lt e cur then e else cur) x l.

Definition py_max (x : list string) (l : list (list string)) : list string :=
  foldl (fun cur e => if list_lt cur e then e else cur) x l.

(** The scan of [commonpath]: [s1] up to the first position where it
    differs from [s2]; [None] is the [IndexError] of [s2[i]]. *)
Fixpoint common_prefix (s1 s2 : list string) : option (list string) :=
  match s1 with
  | [] => Some []
  | c :: s1' =>
      match s2 with
      | [] => None
      | d :: s2' =>
          if decide (c = d) then cons c <$> common_prefix s1' s2'
          else Some []
      end
  end.

Definition components (path : string) : list string :=
  filter (fun c => c <> "" /\ c <> ".") (split path).

(** [os.path.commonpath] *)
Definition commonpath (paths : list string) : Outcome string :=
  match paths with
  | [] => Raise (PyExc ValueError "commonpath() arg is an empty sequence")
  | p :: ps =>
      if forallb (fun q => bool_decide (isabs q = isabs p)) ps
      then
        let s1 := py_min (components p) (components <$> ps) in
        let s2 := py_max (components p) (components <$> ps) in
        match common_prefix s1 s2 with
        | None => Raise (PyExc IndexError "list index out of range")
        | Some common =>
            Return ((if isabs p then sep else "") +:+ join_comps common)
        end
      else Raise (PyExc ValueError "Can't mix absolute and relative paths")
  end.

End posixpath.

(** ** [release_task_audio_paths.py] *)

Module release_task_audio_paths.

Import posixpath.

(** What the operating system answers: the temporary directory and the
    canonical form of a path (symbolic links and the working directory
    resolved). *)
Record OsEnv := {
  gettempdir : string;
  realpath : string -> string;
}.

(** A file system without symbolic links, where [realpath] is [abspath]. *)
Definition plain_env (cwd tmp : string) : OsEnv :=
  {| gettempdir := tmp; realpath := abspath cwd |}.

Section validate.

Variable os : OsEnv.

(** Lines 30-35: [commonpath([system_temp, requested_path]) == system_temp],
    [False] on [ValueError]. *)
Definition is_in_temp (system_temp requested_path : string) : Outcome bool :=
  match commonpath [system_temp; requested_path] with
  | Return c => Return (bool_decide (c = system_temp))
  | Raise e => if is_ValueError e then Return false else Raise e
  end.

Definition validate_audio_path (path : option string) : Outcome (option string) :=
  match path with
  | None => Return None
  | Some p =>
      if bool_decide (p = "") then Return None
      else
        let system_temp := realpath os (gettempdir os) in
        let requested_path := realpath os p in
        match is_in_temp system_temp requested_path with
        | Raise e => Raise e
        | Return true => Return (Some requested_path)
        | Return false =>
            if isabs p
            then Raise (HTTPException 400
                          "absolute audio file paths are not allowed")
            else
              let normalized := normpath p in
              if bool_decide (".." ∈ split normalized)
              then Raise (HTTPException 400
                            "path traversal in audio file paths is not allowed")
              else Return (Some p)
        end
  end.

End validate.

(** *** [save_upload_to_temp] *)

Definition bytes := list byte.

(** The upload object.  [pending_reads] scripts what the coming calls of
    [read] answer, a chunk or an exception; once it is used up [read]
    answers [b""], as at the end of the stream.  [close_error] is what
    [close] raises, if anything. *)
Record Upload := {
  filename : option string;
  pending_reads : list (Outcome bytes);
  close_error : option Exc;
  closed : bool;
}.

(** The machine as far as the helper touches it.  Regular files and
    directories are kept by their resolved absolute path (there are no
    symbolic links); the root directory always exists.  [tmpdir] is what
    [tempfile.gettempdir()] returns, [temp_names] are the random names
    [mkstemp] draws, as many as it is willing to try; a file cannot grow
    beyond [disk_quota] bytes. *)
Record IoWorld := {
  files : gmap string bytes;
  dirs : gset string;
  cwd : string;
  open_fds : list Z;
  next_fd : Z;
  tmpdir : string;
  temp_names : list string;
  disk_quota : nat;
  upload : Upload;
}.

Inductive IoCall :=
| call_mkstemp (prefix suffix : string)
| call_os_close (fd : Z)
| call_open_wb (path : string)
| call_upload_read (size : Z)
| call_file_write (path : string) (chunk : bytes)
| call_file_close (path : string)
| call_os_remove (path : string)
| call_upload_close.

Record IoRun := {
  io : IoWorld;
  io_trace : list IoCall;
}.

Definition io_call (c : IoCall) : M IoRun unit :=
  fun s => (Return tt, {| io := io s; io_trace := io_trace s ++ [c] |}).

Definition io_do {A} (f : IoWorld -> Outcome A * IoWorld) : M IoRun A :=
  fun s =>
    match f (io s) with
    | (o, w) => (o, {| io := w; io_trace := io_trace s |})
    end.

Definition set_files (w : IoWorld) (fs : gmap string bytes) : IoWorld :=
  {| files := fs; dirs := dirs w; cwd := cwd w; open_fds := open_fds w;
     next_fd := next_fd w; tmpdir := tmpdir w; temp_names := temp_names w;
     disk_quota := disk_quota w; upload := upload w |}.

Definition set_upload (w : IoWorld) (u : Upload) : IoWorld :=
  {| files := files w; dirs := dirs w; cwd := cwd w; open_fds := open_fds w;
     next_fd := next_fd w; tmpdir := tmpdir w; temp_names := temp_names w;
     disk_quota := disk_quota w; upload := u |}.

(** [s.rfind(".")] *)
Fixpoint rfind_dot (s : string) : option nat :=
  match s with
  | EmptyString => None
  | String c s' =>
      match rfind_dot s' with
      | Some i => Some (S i)
      | None => if decide (c = "."%char) then Some 0 else None
      end
  end.

(** [Path(p).suffix]: the last dot of the final component and what
    follows it, unless that dot starts or ends the name. *)
Definition path_suffix (p : string) : string :=
  let name := default "" (last (components p)) in
  match rfind_dot name with
  | Some i =>
      if bool_decide (0 < i < String.length name - 1)
      then String.substring i (String.length name - i) name
      else ""
  | None => ""
  end.

(** *** Paths as the operating system resolves them *)

(** The path of the directory with the components [comps]. *)
Definition dir_path (comps : list string) : string :=
  "/" +:+ join_comps comps.

Definition is_dir (w : IoWorld) (comps : list string) : bool :=
  bool_decide (comps = []) || bool_decide (dir_path comps ∈ dirs w).

(** From the directory [cur] through the components [comps], each of
    which has to name a directory. *)
Fixpoint walk (w : IoWorld) (path : string) (cur comps : list string)
    : Outcome (list string) :=
  match comps with
  | [] => Return cur
  | c :: rest =>
      if bool_decide (c = "") || bool_decide (c = ".") then walk w path cur rest
      else if bool_decide (c = "..") then walk w path (removelast cur) rest
      else if is_dir w (cur ++ [c]) then walk w path (cur ++ [c]) rest
      else if bool_decide (is_Some (files w !! dir_path (cur ++ [c])))
      then Raise (PyExc NotADirectoryError
                    ("[Errno 20] Not a directory: '" +:+ path +:+ "'"))
      else Raise (PyExc FileNotFoundError
                    ("[Errno 2] No such file or directory: '" +:+ path +:+ "'"))
  end.

(** The resolved path of the entry that [path] names: its directory
    part is walked, its last component is taken as it is.  A last
    component that is empty, [.] or [..] names a directory. *)
Definition locate (w : IoWorld) (path : string) : Outcome string :=
  if bool_decide (path = "")
  then Raise (PyExc FileNotFoundError
                "[Errno 2] No such file or directory: ''")
  else
    let comps := split path in
    let start := if isabs path then [] else components (cwd w) in
    match walk w path start (removelast comps) with
    | Raise e => Raise e
    | Return parent =>
        let name := default "" (last comps) in
        if bool_decide (name = "") || bool_decide (name = ".")
        then Return (dir_path parent)
        else if bool_decide (name = "..")
        then Return (dir_path (removelast parent))
        else Return (dir_path (parent ++ [name]))
    end.

(** The resolved path names a directory. *)
Definition names_dir (w : IoWorld) (p : string) : bool :=
  bool_decide (p = "/") || bool_decide (p ∈ dirs w).

Definition is_FileExistsError (e : Exc) : bool :=
  match e with PyExc FileExistsError _ => true | _ => false end.

(** [os.open(file, O_RDWR | O_CREAT | O_EXCL)]: a new, empty file and a
    descriptor for it. *)
Definition os_open_excl (file : string) (w : IoWorld) : Outcome Z * IoWorld :=
  match locate w file with
  | Raise e => (Raise e, w)
  | Return p =>
      if names_dir w p || bool_decide (is_Some (files w !! p))
      then (Raise (PyExc FileExistsError
                     ("[Errno 17] File exists: '" +:+ file +:+ "'")), w)
      else
        (Return (next_fd w),
         {| files := <[p := []]> (files w); dirs := dirs w; cwd := cwd w;
            open_fds := next_fd w :: open_fds w;
            next_fd := (next_fd w + 1)%Z;
            tmpdir := tmpdir w; temp_names := temp_names w;
            disk_quota := disk_quota w; upload := upload w |})
  end.

(** The loop of [tempfile._mkstemp_inner] over the candidate names: a
    name that is taken is passed over, any other failure of [os.open] is
    raised. *)
Fixpoint mkstemp_inner (dir pre suf : string) (names : list string)
    (w : IoWorld) : Outcome (Z * string) * IoWorld :=
  match names with
  | [] =>
      (Raise (PyExc FileExistsError
                "[Errno 17] No usable temporary file name found"),
       {| files := files w; dirs := dirs w; cwd := cwd w;
          open_fds := open_fds w; next_fd := next_fd w; tmpdir := tmpdir w;
          temp_names := []; disk_quota := disk_quota w;
          upload := upload w |})
  | name :: rest =>
      let file := join dir (pre +:+ name +:+ suf) in
      match os_open_excl file w with
      | (Return fd, w') =>
          (Return (fd, file),
           {| files := files w'; dirs := dirs w'; cwd := cwd w';
              open_fds := open_fds w'; next_fd := next_fd w';
              tmpdir := tmpdir w'; temp_names := rest;
              disk_quota := disk_quota w'; upload := upload w' |})
      | (Raise e, w') =>
          if is_FileExistsError e then mkstemp_inner dir pre suf rest w'
          else
            (Raise e,
             {| files := files w'; dirs := dirs w'; cwd := cwd w';
                open_fds := open_fds w'; next_fd := next_fd w';
                tmpdir := tmpdir w'; temp_names := rest;
                disk_quota := disk_quota w'; upload := upload w' |})
      end
  end.

(** [tempfile.mkstemp(prefix=..., suffix=...)]: creates an empty file
    under a fresh name in [abspath(gettempdir())] and returns an open
    descriptor and the path. *)
Definition mkstemp (prefix suffix : string) : M IoRun (Z * string) :=
  io_call (call_mkstemp prefix suffix) ;;;
  io_do (fun w =>
    mkstemp_inner (abspath (cwd w) (tmpdir w)) prefix suffix (temp_names w) w).

(** [os.close(fd)] *)
Definition os_close (fd : Z) : M IoRun unit :=
  io_call (call_os_close fd) ;;;
  io_do (fun w =>
    if bool_decide (fd ∈ open_fds w)
    then (Return tt,
          {| files := files w; dirs := dirs w; cwd := cwd w;
             open_fds := filter (fun x => x <> fd) (open_fds w);
             next_fd := next_fd w; tmpdir := tmpdir w;
             temp_names := temp_names w; disk_quota := disk_quota w;
             upload := upload w |})
    else (Raise (PyExc OSError "[Errno 9] Bad file descriptor"), w)).

(** A file object: the name it was opened under and the resolved path
    of the file it writes to. *)
Record FileObj := {
  file_name : string;
  file_node : string;
}.

(** [open(path, "wb")]: the file exists and is empty afterwards. *)
Definition open_wb (path : string) : M IoRun FileObj :=
  io_call (call_open_wb path) ;;;
  io_do (fun w =>
    match locate w path with
    | Raise e => (Raise e, w)
    | Return p =>
        if names_dir w p
        then (Raise (PyExc IsADirectoryError
                       ("[Errno 21] Is a directory: '" +:+ path +:+ "'")), w)
        else (Return {| file_name := path; file_node := p |},
              set_files w (<[p := []]> (files w)))
    end).

(** [file_obj.write(chunk)] *)
Definition file_write (file_obj : FileObj) (chunk : bytes) : M IoRun unit :=
  io_call (call_file_write (file_name file_obj) chunk) ;;;
  io_do (fun w =>
    let content := default [] (files w !! file_node file_obj) in
    if bool_decide (length content + length chunk <= disk_quota w)
    then (Return tt,
          set_files w (<[file_node file_obj := content ++ chunk]> (files w)))
    else (Raise (PyExc OSError "[Errno 28] No space left on device"), w)).

(** Leaving the [with] block closes the file object. *)
Definition file_close (file_obj : FileObj) : M IoRun unit :=
  io_call (call_file_close (file_name file_obj)).

(** [await upload.read(size)] *)
Definition upload_read (size : Z) : M IoRun bytes :=
  io_call (call_upload_read size) ;;;
  io_do (fun w =>
    let u := upload w in
    match pending_reads u with
    | [] => (Return [], w)
    | o :: rest =>
        (o, set_upload w {| filename := filename u; pending_reads := rest;
                            close_error := close_error u;
                            closed := closed u |})
    end).

(** [os.remove(path)] *)
Definition os_remove (path : string) : M IoRun unit :=
  io_call (call_os_remove path) ;;;
  io_do (fun w =>
    match locate w path with
    | Raise e => (Raise e, w)
    | Return p =>
        if bool_decide (is_Some (files w !! p))
        then (Return tt, set_files w (delete p (files w)))
        else if names_dir w p
        then (Raise (PyExc IsADirectoryError
                       ("[Errno 21] Is a directory: '" +:+ path +:+ "'")), w)
        else (Raise (PyExc FileNotFoundError
                       ("[Errno 2] No such file or directory: '"
                        +:+ path +:+ "'")), w)
    end).

(** [await upload.close()] *)
Definition upload_close : M IoRun unit :=
  io_call call_upload_close ;;;
  io_do (fun w =>
    let u := upload w in
    match close_error u with
    | Some e => (Raise e, w)
    | None =>
        (Return tt,
         set_upload w {| filename := filename u;
                         pending_reads := pending_reads u;
                         close_error := close_error u; closed := true |})
    end).

Definition chunk_size : Z := 1024 * 1024.

(** Lines 68-72, the [while True] loop; [None] when [fuel] passes do not
    reach its [break]. *)
Fixpoint copy_chunks (fuel : nat) (file_obj : FileObj) (s : IoRun)
    : option (Outcome unit * IoRun) :=
  match fuel with
  | 0 => None
  | S n =>
      match upload_read chunk_size s with
      | (Raise e, s') => Some (Raise e, s')
      | (Return [], s') => Some (Return tt, s')
      | (Return chunk, s') =>
          match file_write file_obj chunk s' with
          | (Raise e, s'') => Some (Raise e, s'')
          | (Return _, s'') => copy_chunks n file_obj s''
          end
      end
  end.

(** Lines 67-72: [with open(path, "wb") as file_obj: <loop>]. *)
Definition write_upload (fuel : nat) (path : string) (s : IoRun)
    : option (Outcome unit * IoRun) :=
  match open_wb path s with
  | (Raise e, s') => Some (Raise e, s')
  | (Return file_obj, s') =>
      match copy_chunks fuel file_obj s' with
      | None => None
      | Some (o, s'') =>
          match file_close file_obj s'' with
          | (Return _, s3) => Some (o, s3)
          | (Raise e, s3) => Some (Raise e, s3)
          end
      end
  end.

(** Lines 63-65: the suffix of the upload's file name, [mkstemp] and the
    closing of its descriptor. *)
Definition create_temp (prefix : string) : M IoRun string :=
  let* name := (fun s => (Return (filename (upload (io s))), s)) in
  let suffix := path_suffix (str_or name "") in
  let* created := mkstemp (prefix +:+ "_") suffix in
  os_close created.1 ;;;
  ret created.2.

(** [save_upload_to_temp(upload, prefix=prefix)].  The outcome of the
    guarded block is computed first (it is the only part that loops) and
    then placed under the [except] and [finally] clauses. *)
Definition save_upload_to_temp (fuel : nat) (prefix : string) (s : IoRun)
    : option (Outcome string * IoRun) :=
  match create_temp prefix s with
  | (Raise e, s1) => Some (Raise e, s1)
  | (Return path, s1) =>
      match write_upload fuel path s1 with
      | None => None
      | Some block =>
          Some
            ((try_finally
                (try_except (fun _ => block) is_Exception
                   (fun exc =>
                      try_except (os_remove path) is_Exception
                                 (fun _ => ret tt) ;;;
                      raise exc))
                (try_except upload_close is_Exception (fun _ => ret tt)) ;;;
              ret path) s1)
      end
  end.

End release_task_audio_paths.

Export release_task_audio_paths.

(** ** Notions used to state the properties of the worker *)

Module worker_spec.

(** A run that starts with an empty trace. *)
Definition start (w : World) : Run := {| world := w; trace := [] |}.

(** The world as [run_one_job] finds it: the id has left the pending
    list if it was there. *)
Definition claim_pending (job_id : string) (w : World) : World :=
  match list_remove job_id (pending_ids (app_state w)) with
  | Some l =>
      {| heap := heap w; store := store w;
         app_state := {| pending_ids := l;
                         job_queue := job_queue (app_state w) |} |}
  | None => w
  end.

(** The world after [task_done()]. *)
Definition acknowledged (w : World) : World :=
  {| heap := heap w; store := store w;
     app_state := {| pending_ids := pending_ids (app_state w);
                     job_queue := task_done (job_queue (app_state w)) |} |}.

(** A collaborator that returns normally whatever the state. *)
Definition never_raises (f : string -> World -> Outcome unit * World) : Prop :=
  forall job_id w, (f job_id w).1 = Return tt.

(** The events published after a normal return, read off the record. *)
Definition normal_events (o : JobRecord) : list ProgressEvent :=
  (if bool_decide (status o = "succeeded") && truthy_result (result o)
   then [EvResult (default [] (result o))]
   else if bool_decide (status o = "failed")
   then [EvError (str_or (error o) "Generation failed")]
   else []) ++ [EvDone].

(** The events published after a failure. *)
Definition failure_events (exc : Exc) : list ProgressEvent :=
  [EvError (str exc); EvDone].

(** The calls of one notification: the events, if there is a channel,
    then the signal, if there is one. *)
Definition notify_calls (r : loc) (o : JobRecord) (evs : list ProgressEvent)
    : list Call :=
  (if progress_queue o is Some _ then call_put r <$> evs else []) ++
  (if done_event o is Some _ then [call_done_event_set r] else []).

(** The calls up to and including the dispatch of the job. *)
Definition dispatch_calls (job_id : string) : list Call :=
  [call_store_get job_id; call_lock_acquire; call_pending_remove job_id;
   call_lock_release; call_run_one_job job_id].

(** The calls between the dispatch and the [finally] clause, given the
    record reference, the outcome of the job and the world it left. *)
Definition reaction_calls (job_id : string) (rec : option loc)
    (o : Outcome unit) (w1 : World) : list Call :=
  match rec, o with
  | None, _ => []
  | Some r, Return _ => notify_calls r (heap w1 r) (normal_events (heap w1 r))
  | Some r, Raise e =>
      if is_Exception e
      then (if terminal (status (heap w1 r)) then []
            else [call_mark_failed job_id (str e)])
           ++ notify_calls r (heap w1 r) (failure_events e)
      else []
  end.

(** What the guarded part of [process_queue_item] hands on. *)
Definition guarded_outcome (o : Outcome unit) : Outcome unit :=
  match o with
  | Return _ => Return tt
  | Raise e => if is_Exception e then Return tt else Raise e
  end.

(** Whether the guarded part notifies at all, and whether it marks. *)
Definition reacts (o : Outcome unit) : bool :=
  match o with Return _ => true | Raise e => is_Exception e end.

Definition marks (o : Outcome unit) (rc : JobRecord) : bool :=
  match o with
  | Return _ => false
  | Raise e => is_Exception e && negb (terminal (status rc))
  end.

Definition failure_message (o : Outcome unit) : string :=
  match o with Return _ => "" | Raise e => str e end.

(** The events the worker publishes, given how the job ended. *)
Definition reaction_events (o : Outcome unit) (rc : JobRecord)
    : list ProgressEvent :=
  match o with
  | Return _ => normal_events rc
  | Raise e => if is_Exception e then failure_events e else []
  end.

(** The record [r] and the store when the [finally] clause starts
    ([w2]), against the world the job left ([w1]). *)
Definition reaction_state (job_id : string) (r : loc) (o : Outcome unit)
    (w1 w2 : World) : Prop :=
  progress_queue (heap w2 r)
  = (if reacts o
     then (fun q => q ++ reaction_events o (heap w1 r))
            <$> progress_queue (heap w1 r)
     else progress_queue (heap w1 r))
  /\ done_event (heap w2 r)
     = (if reacts o then set <$> done_event (heap w1 r)
        else done_event (heap w1 r))
  /\ result (heap w2 r) = result (heap w1 r)
  /\ app_state w2 = app_state w1
  /\ (if marks o (heap w1 r)
      then mark_failed_calls (store w2)
           = mark_failed_calls (store w1) ++ [(job_id, failure_message o)]
           /\ (record (store w1) = Some r ->
               status (heap w2 r) = "failed"
               /\ error (heap w2 r) = Some (failure_message o))
      else store w2 = store w1
           /\ status (heap w2 r) = status (heap w1 r)
           /\ error (heap w2 r) = error (heap w1 r)).

(** The [finally] clause applied to the outcome [og] and the state [s2]
    of the guarded part. *)
Definition finish (cleanup : string -> World -> Outcome unit * World)
    (job_id : string) (og : Outcome unit) (s2 : Run) : Outcome unit * Run :=
  match cleanup job_id (world s2) with
  | (Return _, w3) =>
      (og, {| world := acknowledged w3;
              trace := trace s2 ++ [call_cleanup_job_temp_files job_id;
                                    call_task_done] |})
  | (Raise e, w3) =>
      (Raise e, {| world := w3;
                   trace := trace s2 ++ [call_cleanup_job_temp_files job_id] |})
  end.

Definition is_put (c : Call) : bool :=
  match c with call_put _ _ => true | _ => false end.

Definition is_done_event_set (c : Call) : bool :=
  match c with call_done_event_set _ => true | _ => false end.

Definition is_mark_failed (c : Call) : bool :=
  match c with call_mark_failed _ _ => true | _ => false end.

Definition is_cleanup_or_ack (c : Call) : bool :=
  match c with
  | call_cleanup_job_temp_files _ | call_task_done => true
  | _ => false
  end.

(** How a notification block relates the state before and after. *)
Record notified (r : loc) (evs : list ProgressEvent) (s s' : Run) : Prop := {
  notified_trace : trace s' = trace s ++ notify_calls r (heap (world s) r) evs;
  notified_queue : progress_queue (heap (world s') r)
                   = (fun q => q ++ evs) <$> progress_queue (heap (world s) r);
  notified_event : done_event (heap (world s') r)
                   = set <$> done_event (heap (world s) r);
  notified_status : status (heap (world s') r) = status (heap (world s) r);
  notified_result : result (heap (world s') r) = result (heap (world s) r);
  notified_error : error (heap (world s') r) = error (heap (world s) r);
  notified_store : store (world s') = store (world s);
  notified_app : app_state (world s') = app_state (world s);
}.

(** *** The worlds of the scenarios *)

(** A queued record with a listener: an empty channel and an unset signal. *)
Definition listening_record : JobRecord :=
  {| status := "queued"; result := None; error := None;
     progress_queue := Some []; done_event := Some {| was_set := false |} |}.

(** A world with one record, at reference [0], known to the store, and one
    pending id. *)
Definition world_with (rc : JobRecord) (pending : list string) : World :=
  {| heap := fun _ => rc;
     store := {| record := Some 0; mark_failed_calls := [];
                 cleanup_returns := [Count 0]; cleanup_call_count := 0;
                 stats := [("total", 0%Z)] |};
     app_state := {| pending_ids := pending;
                     job_queue := {| task_done_calls := 0 |} |} |}.

(** A world whose store knows no record. *)
Definition world_without_record (pending : list string) : World :=
  {| heap := fun _ => listening_record;
     store := {| record := None; mark_failed_calls := [];
                 cleanup_returns := [Count 0]; cleanup_call_count := 0;
                 stats := [("total", 0%Z)] |};
     app_state := {| pending_ids := pending;
                     job_queue := {| task_done_calls := 0 |} |} |}.

(** [run_one_job] raising [RuntimeError("boom")]. *)
Definition run_boom (job_id : string) (req : unit) (w : World)
    : Outcome unit * World :=
  (Raise (PyExc RuntimeError "boom"), w).

(** [run_one_job] recording a success on the record at [0]. *)
Definition run_succeeds (job_id : string) (req : unit) (w : World)
    : Outcome unit * World :=
  let o := heap w 0 in
  (Return tt,
   set_heap w (heap_set (heap w) 0
     {| status := "succeeded";
        result := Some [("audio_path", "/tmp/out.wav")];
        error := error o; progress_queue := progress_queue o;
        done_event := done_event o |})).

(** A cleanup routine with nothing to do. *)
Definition cleanup_nothing (job_id : string) (w : World)
    : Outcome unit * World :=
  (Return tt, w).

End worker_spec.

Export worker_spec.

(** ** Notions used to state the properties of the cleanup loop *)

Module loop_spec.

(** A loop that starts with an empty trace. *)
Definition loop_start {Env} (st : _FakeStore) (env : Env) : LoopRun Env :=
  {| loop_world := {| loop_store := st; loop_env := env |};
     loop_trace := [] |}.

Definition is_get_stats (c : LoopCall) : bool :=
  match c with call_get_stats => true | _ => false end.

(** What [cleanup_old_jobs] returns in the pass that starts in [s], if the
    pass gets that far and the call returns. *)
Definition removed_count {Env}
    (sleep_fn : Z -> LoopWorld Env -> Outcome unit * LoopWorld Env)
    (seconds : Z) (s : LoopRun Env) : option Z :=
  match sleep_fn seconds (loop_world Env s) with
  | (Return _, w) =>
      match (cleanup_old_jobs (loop_store Env w)).1 with
      | Return n => Some n
      | Raise _ => None
      end
  | (Raise _, _) => None
  end.

(** The stats the store reports in that pass. *)
Definition reported_stats {Env}
    (sleep_fn : Z -> LoopWorld Env -> Outcome unit * LoopWorld Env)
    (seconds : Z) (s : LoopRun Env) : list (string * Z) :=
  get_stats (cleanup_old_jobs
               (loop_store Env (sleep_fn seconds (loop_world Env s)).2)).2.

(** A [sleep_fn] that always returns and counts its calls. *)
Definition sleep_counting (seconds : Z) (w : LoopWorld nat)
    : Outcome unit * LoopWorld nat :=
  (Return tt, {| loop_store := loop_store nat w;
                 loop_env := S (loop_env nat w) |}).

(** A [sleep_fn] that is cancelled in its fourth call. *)
Definition sleep_cancelled_after_three (seconds : Z) (w : LoopWorld nat)
    : Outcome unit * LoopWorld nat :=
  if bool_decide (3 <= loop_env nat w)
  then (Raise (PyExc CancelledError ""), w)
  else sleep_counting seconds w.

(** The store of the scenario: [cleanup_returns = [0, 3, RuntimeError("boom")]]. *)
Definition scenario_store : _FakeStore :=
  {| record := None; mark_failed_calls := [];
     cleanup_returns := [Count 0; Count 3;
                         Failure (PyExc RuntimeError "boom")];
     cleanup_call_count := 0;
     stats := [("total", 0%Z)] |}.

(** The calls of the first three ticks of the scenario. *)
Definition scenario_calls : list LoopCall :=
  [call_sleep_fn 60; call_cleanup_old_jobs;
   call_sleep_fn 60; call_cleanup_old_jobs; call_get_stats;
   call_log_fn "[API Server] Cleaned up 3 old jobs. Current stats: {'total': 0}";
   call_sleep_fn 60; call_cleanup_old_jobs;
   call_log_fn "[API Server] Job cleanup error: boom"].

(** The calls of every later tick of the scenario. *)
Definition failing_tick_calls : list LoopCall :=
  [call_sleep_fn 60; call_cleanup_old_jobs;
   call_log_fn "[API Server] Job cleanup error: boom"].

(** The state in which the loop of the scenario returns when its fourth
    sleep is cancelled. *)
Definition cancelled_scenario_end : LoopRun nat :=
  {| loop_world :=
       {| loop_store :=
            {| record := None; mark_failed_calls := [];
               cleanup_returns := cleanup_returns scenario_store;
               cleanup_call_count := 3;
               stats := stats scenario_store |};
          loop_env := 3 |};
     loop_trace := scenario_calls ++ [call_sleep_fn 60] |}.

End loop_spec.

Export loop_spec.

(** ** Notions used to state the properties of the path validator *)

Module path_spec.

Import posixpath.

(** An absolute path in canonical form: a slash followed by its own
    components joined by slashes.  [realpath] returns such paths. *)
Definition canonical_abs (p : string) : Prop :=
  p = "/" +:+ join_comps (components p).

(** [p] lies in the directory [d], or is [d] itself: the components of
    [d] are the first components of [p]. *)
Definition path_inside (d p : string) : Prop :=
  components d `prefix_of` components p.

#[global] Instance path_inside_dec d p : Decision (path_inside d p).
Proof. unfold path_inside. apply _. Defined.

(** The longest common prefix of two component lists. *)
Fixpoint lcp (a b : list string) : list string :=
  match a, b with
  | x :: a', y :: b' => if decide (x = y) then x :: lcp a' b' else []
  | _, _ => []
  end.

(** The environment of the examples: working directory [/home/user],
    temporary directory [/tmp], no symbolic links. *)
Definition home_env : OsEnv := plain_env "/home/user" "/tmp".

(** The same with a working directory below the temporary directory. *)
Definition tmp_work_env : OsEnv := plain_env "/tmp/work" "/tmp".

End path_spec.

Export path_spec.

(** ** Notions used to state the properties of [save_upload_to_temp] *)

Module upload_spec.

(** The chunks a stream delivers before its end: the scripted reads up
    to the first empty chunk or failure. *)
Fixpoint chunks_until_eof (reads : list (Outcome bytes)) : list bytes :=
  match reads with
  | Return (b :: chunk) :: rest => (b :: chunk) :: chunks_until_eof rest
  | _ => []
  end.

Definition is_upload_close (c : IoCall) : bool :=
  match c with call_upload_close => true | _ => false end.

(** [upload.close()] returns or raises an [Exception], nothing worse. *)
Definition close_is_ordinary (u : Upload) : Prop :=
  match close_error u with
  | Some e => is_Exception e = true
  | None => True
  end.

(** The upload of the unit test: payload [b"abc123"], read in one chunk. *)
Definition sample_upload : Upload :=
  {| filename := Some "sample.wav";
     pending_reads := [Return (String.list_byte_of_string "abc123")];
     close_error := None;
     closed := false |}.

(** An upload whose second read fails. *)
Definition broken_upload : Upload :=
  {| filename := Some "sample.wav";
     pending_reads := [Return (String.list_byte_of_string "abc");
                       Raise (PyExc OSError "connection reset")];
     close_error := None;
     closed := false |}.

Definition sample_io (u : Upload) : IoRun :=
  {| io := {| files := ∅;
              dirs := list_to_set ["/tmp"; "/home"; "/home/user"];
              cwd := "/home/user"; open_fds := []; next_fd := 3;
              tmpdir := "/tmp"; temp_names := ["k3x9"]; disk_quota := 1000;
              upload := u |};
     io_trace := [] |}.

End upload_spec.

Export upload_spec.

(** ** Symbolic execution of [process_queue_item] *)

Section worker_blocks.

Lemma heap_set_same h r v : heap_set h r v r = v.
Proof. unfold heap_set. by rewrite decide_True. Qed.

Lemma claim_job_runs job_id s :
  claim_job job_id s
  = (Return tt,
     {| world := claim_pending job_id (world s);
        trace := trace s ++ [call_lock_acquire; call_pending_remove job_id;
                             call_lock_release] |}).
Proof.
  unfold claim_job, with_pending_lock, try_except, try_finally, pending_remove,
    external, log_call, Py.bind, Py.ret, claim_pending.
  simpl. destruct (list_remove job_id _); simpl;
    rewrite <- !app_assoc; reflexivity.
Qed.

Lemma dispatch_runs Req run job_id (req : Req) s :
  dispatch Req run job_id req s
  = ((run job_id req (world s)).1,
     {| world := (run job_id req (world s)).2;
        trace := trace s ++ [call_run_one_job job_id] |}).
Proof.
  unfold dispatch, external, log_call, Py.bind. simpl.
  destruct (run job_id req (world s)) as [[]]; reflexivity.
Qed.

Ltac run_block :=
  unfold if_rec_and, put, done_event_set, field, log_call, external,
    Py.bind, Py.ret, Py.raise; simpl.

Lemma notify_outcome_runs r s :
  exists s', notify_outcome (Some r) s = (Return tt, s')
             /\ notified r (normal_events (heap (world s) r)) s s'.
Proof.
  destruct s as [w t]. unfold notify_outcome, normal_events.
  destruct (heap w r) as [st res err q d] eqn:Hr.
  destruct (bool_decide (st = "succeeded") && truthy_result res) eqn:E1;
    [|destruct (bool_decide (st = "failed")) eqn:E2];
    destruct q as [q|], d as [d|]; run_block;
    repeat (progress (simpl; rewrite ?Hr, ?heap_set_same, ?E1, ?E2));
    (eexists; split; [reflexivity|]); split; unfold notify_calls; simpl;
    rewrite ?heap_set_same, ?Hr; simpl;
    rewrite <- ?app_assoc, ?app_nil_r; reflexivity.
Qed.

Lemma notify_failure_runs r exc s :
  exists s', notify_failure (Some r) exc s = (Return tt, s')
             /\ notified r (failure_events exc) s s'.
Proof.
  destruct s as [w t]. unfold notify_failure, failure_events.
  destruct (heap w r) as [st res err q d] eqn:Hr.
  destruct q as [q|], d as [d|]; run_block;
    repeat (progress (simpl; rewrite ?Hr, ?heap_set_same));
    (eexists; split; [reflexivity|]); split; unfold notify_calls; simpl;
    rewrite ?heap_set_same, ?Hr; simpl;
    rewrite <- ?app_assoc, ?app_nil_r; reflexivity.
Qed.

Lemma notify_none_runs s exc :
  notify_outcome None s = (Return tt, s)
  /\ notify_failure None exc s = (Return tt, s).
Proof. split; reflexivity. Qed.

(** The marking step: it always returns; it calls the store exactly when
    the status is not terminal, and never touches channel or signal. *)
Lemma mark_unless_terminal_runs job_id r exc s :
  exists s',
    mark_unless_terminal job_id (Some r) exc s = (Return tt, s')
    /\ trace s' = trace s ++
         (if terminal (status (heap (world s) r)) then []
          else [call_mark_failed job_id (str exc)])
    /\ progress_queue (heap (world s') r) = progress_queue (heap (world s) r)
    /\ done_event (heap (world s') r) = done_event (heap (world s) r)
    /\ result (heap (world s') r) = result (heap (world s) r)
    /\ app_state (world s') = app_state (world s)
    /\ (if terminal (status (heap (world s) r))
        then world s' = world s
        else mark_failed_calls (store (world s'))
             = mark_failed_calls (store (world s)) ++ [(job_id, str exc)]
             /\ (record (store (world s)) = Some r ->
                 status (heap (world s') r) = "failed"
                 /\ error (heap (world s') r) = Some (str exc))).
Proof.
  destruct s as [w t]. unfold mark_unless_terminal, field, Py.bind. simpl.
  destruct (terminal (status (heap w r))) eqn:Ht; simpl.
  - eexists. split; [reflexivity|]. simpl. rewrite app_nil_r.
    repeat split; done.
  - unfold store_mark_failed, external, log_call, Py.bind, mark_failed. simpl.
    destruct (record (store w)) as [r'|] eqn:Hrec; simpl;
      (eexists; split; [reflexivity|]); simpl;
      (split; [reflexivity|]).
    + unfold heap_set. destruct (decide (r = r')) as [->|Hne]; simpl.
      * repeat split; done.
      * repeat split; try done; intros; congruence.
    + repeat split; done.
Qed.

Lemma process_finally_runs cleanup job_id s :
  process_finally cleanup job_id s
  = match cleanup job_id (world s) with
    | (Return _, w) =>
        (Return tt,
         {| world := acknowledged w;
            trace := trace s ++ [call_cleanup_job_temp_files job_id;
                                 call_task_done] |})
    | (Raise e, w) =>
        (Raise e,
         {| world := w;
            trace := trace s ++ [call_cleanup_job_temp_files job_id] |})
    end.
Proof.
  unfold process_finally, queue_task_done, external, log_call, Py.bind.
  simpl. destruct (cleanup job_id (world s)) as [[[]|e] w']; simpl;
    rewrite <- ?app_assoc; reflexivity.
Qed.

Section guarded.

Variable Req : Type.
Variable run : string -> Req -> World -> Outcome unit * World.
Variable cleanup : string -> World -> Outcome unit * World.
Variables (job_id : string) (req : Req).

Lemma process_body_runs rec w t o w1 :
  run job_id req (claim_pending job_id w) = (o, w1) ->
  process_body Req run job_id req rec {| world := w; trace := t |}
  = match o with
    | Return _ =>
        notify_outcome rec
          {| world := w1;
             trace := t ++ [call_lock_acquire; call_pending_remove job_id;
                            call_lock_release; call_run_one_job job_id] |}
    | Raise e =>
        (Raise e,
         {| world := w1;
            trace := t ++ [call_lock_acquire; call_pending_remove job_id;
                           call_lock_release; call_run_one_job job_id] |})
    end.
Proof.
  intros Hrun. unfold process_body, Py.bind.
  rewrite claim_job_runs, dispatch_runs. simpl. rewrite Hrun. simpl.
  rewrite <- app_assoc. simpl. destruct o as [[]|e]; reflexivity.
Qed.

(** The guarded part, for a job whose record exists. *)
Lemma guarded_runs_some r w t o w1 :
  run job_id req (claim_pending job_id w) = (o, w1) ->
  exists s2,
    try_except (process_body Req run job_id req (Some r)) is_Exception
               (process_handler job_id (Some r)) {| world := w; trace := t |}
    = (guarded_outcome o, s2)
    /\ trace s2 = t ++ [call_lock_acquire; call_pending_remove job_id;
                        call_lock_release; call_run_one_job job_id]
                    ++ reaction_calls job_id (Some r) o w1
    /\ reaction_state job_id r o w1 (world s2).
Proof.
  intros Hrun. unfold try_except.
  rewrite (process_body_runs _ _ _ _ _ Hrun).
  set (s1 := {| world := w1; trace := _ |}).
  destruct o as [[]|e]; simpl.
  - destruct (notify_outcome_runs r s1) as (s2 & -> & H).
    exists s2. split; [reflexivity|]. destruct H. subst s1; simpl in *.
    split; [rewrite notified_trace0, <- app_assoc; reflexivity|].
    unfold reaction_state; simpl. rewrite notified_store0. done.
  - destruct (is_Exception e) eqn:He; simpl.
    + unfold process_handler, Py.bind.
      destruct (mark_unless_terminal_runs job_id r e s1)
        as (sm & -> & Htr & Hq & Hd & Hres & Happ & Hmark).
      destruct (notify_failure_runs r e sm) as (s2 & -> & H).
      exists s2. split; [reflexivity|]. destruct H. subst s1; simpl in *.
      split.
      * rewrite notified_trace0, Htr. unfold notify_calls.
        rewrite Hq, Hd, <- !app_assoc. reflexivity.
      * unfold reaction_state; simpl.
        rewrite notified_queue0, notified_event0, notified_result0,
          notified_app0, notified_store0, notified_status0, notified_error0,
          Hq, Hd, Hres, Happ, He.
        repeat (split; [reflexivity|]).
        destruct (terminal (status (heap w1 r))); simpl.
        -- rewrite Hmark. done.
        -- done.
    + eexists. split; [reflexivity|]. subst s1; simpl.
      unfold reaction_state; simpl. rewrite He. simpl.
      rewrite ?app_nil_r. done.
Qed.

(** The guarded part, for a job the store does not know. *)
Lemma guarded_runs_none w t o w1 :
  run job_id req (claim_pending job_id w) = (o, w1) ->
  try_except (process_body Req run job_id req None) is_Exception
             (process_handler job_id None) {| world := w; trace := t |}
  = (guarded_outcome o,
     {| world := w1;
        trace := t ++ [call_lock_acquire; call_pending_remove job_id;
                       call_lock_release; call_run_one_job job_id] |}).
Proof.
  intros Hrun. unfold try_except.
  rewrite (process_body_runs _ _ _ _ _ Hrun).
  destruct o as [[]|e]; simpl; [reflexivity|].
  destruct (is_Exception e); reflexivity.
Qed.

(** [process_queue_item], run from a fresh trace: the calls up to the
    dispatch, the reaction to the job's outcome, then the [finally]
    clause. *)
Lemma process_queue_item_runs w o w1 :
  run job_id req (claim_pending job_id w) = (o, w1) ->
  exists w2,
    process_queue_item Req run cleanup job_id req (start w)
    = finish cleanup job_id (guarded_outcome o)
        {| world := w2;
           trace := dispatch_calls job_id
                    ++ reaction_calls job_id (get (store w) job_id) o w1 |}
    /\ match get (store w) job_id with
       | Some r => reaction_state job_id r o w1 w2
       | None => w2 = w1
       end.
Proof.
  intros Hrun.
  unfold process_queue_item, store_get, log_call, Py.bind, try_finally, start.
  simpl. destruct (get (store w) job_id) as [r|] eqn:Hget.
  - destruct (guarded_runs_some r w [call_store_get job_id] o w1 Hrun)
      as (s2 & -> & Htr & Hst).
    exists (world s2). split; [|exact Hst].
    rewrite process_finally_runs. unfold finish. simpl. rewrite Htr.
    destruct (cleanup job_id (world s2)) as [[[]|e] w3]; reflexivity.
  - rewrite (guarded_runs_none w [call_store_get job_id] o w1 Hrun).
    exists w1. split; [|reflexivity].
    rewrite process_finally_runs. unfold finish. simpl.
    destruct (cleanup job_id w1) as [[[]|e] w3]; reflexivity.
Qed.

End guarded.

End worker_blocks.

(** ** Properties of [process_queue_item] *)

Section worker_claims.

Variable Req : Type.
Variable run : string -> Req -> World -> Outcome unit * World.
Variable cleanup : string -> World -> Outcome unit * World.
Variables (job_id : string) (req : Req).

Lemma finish_never_raises og s2 :
  never_raises cleanup ->
  finish cleanup job_id og s2
  = (og, {| world := acknowledged (cleanup job_id (world s2)).2;
            trace := trace s2 ++ [call_cleanup_job_temp_files job_id;
                                  call_task_done] |}).
Proof.
  intros Hc. unfold finish. specialize (Hc job_id (world s2)).
  destruct (cleanup job_id (world s2)) as [oc w3]. simpl in *.
  subst oc. reflexivity.
Qed.

(** Whatever the cleanup routine does, the trace of [finish] is the trace
    so far followed by calls that are neither a [put] nor a [set]. *)
Lemma finish_trace og s2 :
  exists tail,
    trace (finish cleanup job_id og s2).2 = trace s2 ++ tail
    /\ Forall (fun c => is_put c = false /\ is_done_event_set c = false
                        /\ is_mark_failed c = false) tail.
Proof.
  unfold finish. destruct (cleanup job_id (world s2)) as [[[]|e] w3]; simpl;
    eexists; (split; [reflexivity|]); repeat constructor.
Qed.

Lemma filter_none {A} (f : A -> bool) (l : list A) :
  Forall (fun c => f c = false) l -> filter (fun c => f c = true) l = [].
Proof.
  induction 1 as [|c l Hc _ IH]; [reflexivity|].
  rewrite filter_cons, IH. case_decide; congruence.
Qed.

Lemma notify_calls_Forall (P : Call -> Prop) r o evs :
  (forall ev, P (call_put r ev)) -> P (call_done_event_set r) ->
  Forall P (notify_calls r o evs).
Proof.
  intros Hput Hset. unfold notify_calls. apply Forall_app. split.
  - destruct (progress_queue o); [|constructor].
    apply Forall_fmap, Forall_forall. intros ev _. apply Hput.
  - destruct (done_event o); repeat constructor. exact Hset.
Qed.

Lemma reaction_calls_Forall (P : Call -> Prop) rec o w1 :
  (forall r ev, P (call_put r ev)) -> (forall r, P (call_done_event_set r)) ->
  (forall m, P (call_mark_failed job_id m)) ->
  Forall P (reaction_calls job_id rec o w1).
Proof.
  intros Hput Hset Hmark. unfold reaction_calls.
  destruct rec as [r|]; [|constructor].
  destruct o as [[]|e]; [by apply notify_calls_Forall|].
  destruct (is_Exception e); [|constructor].
  apply Forall_app. split; [|by apply notify_calls_Forall].
  destruct (terminal _); repeat constructor. apply Hmark.
Qed.

Lemma normal_events_done o :
  exists before, normal_events o = before ++ [EvDone] /\ EvDone ∉ before.
Proof.
  unfold normal_events. eexists. split; [reflexivity|].
  destruct (_ && _); [|destruct (bool_decide _)];
    rewrite ?list_elem_of_singleton; try apply not_elem_of_nil; congruence.
Qed.

Lemma reaction_events_done o rc :
  reacts o = true ->
  exists before, reaction_events o rc = before ++ [EvDone] /\ EvDone ∉ before.
Proof.
  destruct o as [[]|e]; simpl; intros Hr.
  - apply normal_events_done.
  - rewrite Hr. exists [EvError (str e)]. split; [reflexivity|].
    rewrite list_elem_of_singleton. congruence.
Qed.

(** C1: for a job that returns or fails, and whose record has a progress
    channel, the trace of [process_queue_item] is: calls that publish
    nothing and set nothing; then the events put on the channel, of which
    the last, and only the last, is [done]; then calls that publish
    nothing.  The completion signal, if the record has one, is set exactly
    once, and in that last part, that is after every event.  When the
    [finally] clause starts (in world [w2]) the channel holds what the job
    left in it followed by those events. *)
Theorem done_is_published_once_and_last w r o w1 q :
  get (store w) job_id = Some r ->
  run job_id req (claim_pending job_id w) = (o, w1) ->
  reacts o = true ->
  progress_queue (heap w1 r) = Some q ->
  exists t0 before t2 w2,
    trace (process_queue_item Req run cleanup job_id req (start w)).2
    = t0 ++ (call_put r <$> (before ++ [EvDone])) ++ t2
    /\ (EvDone ∉ before)
    /\ Forall (fun c => is_put c = false /\ is_done_event_set c = false) t0
    /\ Forall (fun c => is_put c = false) t2
    /\ filter (fun c => is_done_event_set c = true) t2
       = (if done_event (heap w1 r) is Some _ then [call_done_event_set r]
          else [])
    /\ world (process_queue_item Req run cleanup job_id req (start w)).2
       = match cleanup job_id w2 with
         | (Return _, w3) => acknowledged w3
         | (Raise _, w3) => w3
         end
    /\ progress_queue (heap w2 r) = Some (q ++ before ++ [EvDone]).
Proof.
  intros Hget Hrun Hreacts Hq.
  destruct (process_queue_item_runs Req run cleanup job_id req w o w1 Hrun)
    as (w2 & -> & Hst).
  destruct (finish_trace (guarded_outcome o)
              {| world := w2;
                 trace := dispatch_calls job_id
                          ++ reaction_calls job_id (get (store w) job_id) o w1 |})
    as (tail & -> & Htail). cbn [trace].
  rewrite Hget in *.
  destruct (reaction_events_done o (heap w1 r) Hreacts) as (before & Hev & Hnot).
  set (pre := if marks o (heap w1 r)
              then [call_mark_failed job_id (failure_message o)] else []).
  assert (Hcalls : reaction_calls job_id (Some r) o w1
                   = pre ++ (call_put r <$> (before ++ [EvDone]))
                     ++ (if done_event (heap w1 r) is Some _
                         then [call_done_event_set r] else [])).
  { unfold reaction_calls, notify_calls, pre. rewrite Hq, <- Hev.
    destruct o as [[]|e]; simpl in *; [reflexivity|].
    rewrite Hreacts. simpl. destruct (terminal _); reflexivity. }
  rewrite Hcalls.
  exists (dispatch_calls job_id ++ pre), before,
    ((if done_event (heap w1 r) is Some _ then [call_done_event_set r] else [])
     ++ tail), w2.
  split; [by rewrite <- !app_assoc|]. split; [exact Hnot|]. split.
  { apply Forall_app. split; [repeat constructor|].
    unfold pre. destruct (marks _ _); repeat constructor. }
  split.
  { apply Forall_app. split.
    - destruct (done_event _); repeat constructor.
    - eapply Forall_impl; [exact Htail|]. tauto. }
  split.
  { rewrite filter_app.
    assert (filter (fun c => is_done_event_set c = true) tail = []) as ->.
    { apply filter_none. eapply Forall_impl; [exact Htail|]. tauto. }
    destruct (done_event _); reflexivity. }
  split.
  { unfold finish. cbn [world].
    destruct (cleanup job_id w2) as [[[]|e] w3]; reflexivity. }
  destruct Hst as (Hqueue & _). rewrite Hqueue, Hreacts, Hq, Hev. reflexivity.
Qed.

(** C2: when the job raises an exception and its record is not yet
    terminal, the worker calls [mark_failed] with the exception's
    message, publishes [error] with that message and then [done] (if the
    record has a channel), sets the signal (if it has one), runs the
    temp-file cleanup, acknowledges the queue slot and returns; [w2] is
    the world as the cleanup routine receives it. *)
Theorem failure_is_marked_and_notified w r e w1 :
  get (store w) job_id = Some r ->
  run job_id req (claim_pending job_id w) = (Raise e, w1) ->
  is_Exception e = true ->
  terminal (status (heap w1 r)) = false ->
  never_raises cleanup ->
  exists w2,
    process_queue_item Req run cleanup job_id req (start w)
    = (Return tt,
       {| world := acknowledged (cleanup job_id w2).2;
          trace := dispatch_calls job_id
                   ++ [call_mark_failed job_id (str e)]
                   ++ notify_calls r (heap w1 r) [EvError (str e); EvDone]
                   ++ [call_cleanup_job_temp_files job_id; call_task_done] |})
    /\ mark_failed_calls (store w2)
       = mark_failed_calls (store w1) ++ [(job_id, str e)]
    /\ (record (store w1) = Some r ->
        status (heap w2 r) = "failed" /\ error (heap w2 r) = Some (str e))
    /\ progress_queue (heap w2 r)
       = (fun q => q ++ [EvError (str e); EvDone]) <$> progress_queue (heap w1 r)
    /\ done_event (heap w2 r) = set <$> done_event (heap w1 r)
    /\ app_state w2 = app_state w1.
Proof.
  intros Hget Hrun He Hterm Hc.
  destruct (process_queue_item_runs Req run cleanup job_id req w _ w1 Hrun)
    as (w2 & -> & Hst).
  rewrite Hget in *. exists w2.
  rewrite finish_never_raises by assumption. simpl.
  unfold reaction_state in Hst. simpl in Hst.
  rewrite ?He, ?Hterm in *. simpl in *.
  destruct Hst as (Hq & Hd & _ & Happ & Hm & Hs). done.
Qed.

(** C3: when the job raises while the record is already [succeeded] or
    [failed], the worker never calls [mark_failed]; the store, the status
    and the error are, when the cleanup routine receives them, as the job
    left them. *)
Theorem terminal_status_is_not_overwritten w r e w1 :
  get (store w) job_id = Some r ->
  run job_id req (claim_pending job_id w) = (Raise e, w1) ->
  status (heap w1 r) = "succeeded" \/ status (heap w1 r) = "failed" ->
  exists w2 t,
    process_queue_item Req run cleanup job_id req (start w)
    = finish cleanup job_id (guarded_outcome (Raise e))
        {| world := w2; trace := t |}
    /\ Forall (fun c => is_mark_failed c = false)
              (trace (process_queue_item Req run cleanup job_id req (start w)).2)
    /\ store w2 = store w1
    /\ status (heap w2 r) = status (heap w1 r)
    /\ error (heap w2 r) = error (heap w1 r).
Proof.
  intros Hget Hrun Hterm.
  assert (Ht : terminal (status (heap w1 r)) = true).
  { unfold terminal. destruct Hterm as [-> | ->]; reflexivity. }
  destruct (process_queue_item_runs Req run cleanup job_id req w _ w1 Hrun)
    as (w2 & Heq & Hst).
  rewrite Hget in *. exists w2. eexists. split; [exact Heq|].
  unfold reaction_state in Hst. simpl in Hst. rewrite Ht in Hst.
  rewrite andb_false_r in Hst.
  split; [|tauto].
  rewrite Heq.
  destruct (finish_trace (guarded_outcome (Raise e))
              {| world := w2;
                 trace := dispatch_calls job_id
                          ++ reaction_calls job_id (Some r) (Raise e) w1 |})
    as (tail & -> & Htail). cbn [trace].
  apply Forall_app; split; [apply Forall_app; split|].
  - repeat constructor.
  - unfold reaction_calls. destruct (is_Exception e); [|constructor].
    rewrite Ht. simpl. by apply notify_calls_Forall.
  - eapply Forall_impl; [exact Htail|]. tauto.
Qed.

(** C4: whatever the job does (return, raise anything) and whether or not
    the store knows the job, the trace ends with exactly one call of
    [cleanup_job_temp_files(job_id)] followed by exactly one [task_done()],
    provided the cleanup routine itself returns; the queue's counter is
    the one the cleanup routine left, plus one. *)
Theorem cleanup_and_ack_once_on_every_path w :
  never_raises cleanup ->
  exists t w2,
    (process_queue_item Req run cleanup job_id req (start w)).2
    = {| world := acknowledged (cleanup job_id w2).2;
         trace := t ++ [call_cleanup_job_temp_files job_id; call_task_done] |}
    /\ Forall (fun c => is_cleanup_or_ack c = false) t.
Proof.
  intros Hc.
  destruct (run job_id req (claim_pending job_id w)) as [o w1] eqn:Hrun.
  destruct (process_queue_item_runs Req run cleanup job_id req w o w1 Hrun)
    as (w2 & -> & _).
  rewrite finish_never_raises by assumption. cbn [snd world trace].
  exists (dispatch_calls job_id
          ++ reaction_calls job_id (get (store w) job_id) o w1), w2.
  split; [reflexivity|].
  apply Forall_app. split; [repeat constructor|].
  by apply reaction_calls_Forall.
Qed.

Lemma list_remove_absent x l : x ∉ l -> list_remove x l = None.
Proof.
  induction l as [|y l IH]; [reflexivity|].
  rewrite not_elem_of_cons. intros [Hne Hnot]. simpl.
  rewrite decide_False by congruence. by rewrite IH.
Qed.

(** C5: when the id is not in the pending list, its removal (the first
    block, under the lock) returns normally and changes nothing; the job
    is then dispatched on that unchanged world and handled as its own
    outcome demands, and [mark_failed] is called only if the job itself
    raised an exception. *)
Theorem absent_pending_id_is_ignored w t o w1 :
  job_id ∉ pending_ids (app_state w) ->
  run job_id req w = (o, w1) ->
  claim_job job_id {| world := w; trace := t |}
  = (Return tt,
     {| world := w;
        trace := t ++ [call_lock_acquire; call_pending_remove job_id;
                       call_lock_release] |})
  /\ (exists w2,
        process_queue_item Req run cleanup job_id req (start w)
        = finish cleanup job_id (guarded_outcome o)
            {| world := w2;
               trace := dispatch_calls job_id
                        ++ reaction_calls job_id (get (store w) job_id) o w1 |})
  /\ (Exists (fun c => is_mark_failed c = true)
             (trace (process_queue_item Req run cleanup job_id req (start w)).2) ->
      exists e, o = Raise e /\ is_Exception e = true).
Proof.
  intros Habs Hrun.
  assert (Hsame : claim_pending job_id w = w).
  { unfold claim_pending. by rewrite list_remove_absent. }
  split; [rewrite claim_job_runs; simpl; by rewrite Hsame|].
  rewrite <- Hsame in Hrun.
  destruct (process_queue_item_runs Req run cleanup job_id req w o w1 Hrun)
    as (w2 & Heq & _).
  split; [by exists w2|].
  rewrite Heq.
  destruct (finish_trace (guarded_outcome o)
              {| world := w2;
                 trace := dispatch_calls job_id
                          ++ reaction_calls job_id (get (store w) job_id) o w1 |})
    as (tail & -> & Htail). cbn [trace].
  rewrite Exists_app, Exists_app. intros [[H | H] | H].
  - apply Exists_exists in H as (c & Hin & Hc).
    repeat (apply elem_of_cons in Hin as [-> | Hin]; [discriminate|]).
    by apply elem_of_nil in Hin.
  - destruct o as [[]|e].
    + exfalso. apply Exists_exists in H as (c & Hin & Hc).
      assert (Hno : Forall (fun c => is_mark_failed c = false)
                      (reaction_calls job_id (get (store w) job_id) (Return tt) w1)).
      { unfold reaction_calls. destruct (get _ _); [|constructor].
        by apply notify_calls_Forall. }
      rewrite Forall_forall in Hno. specialize (Hno c Hin). congruence.
    + exists e. split; [reflexivity|].
      destruct (is_Exception e) eqn:He; [reflexivity|]. exfalso.
      unfold reaction_calls in H. rewrite He in H.
      destruct (get _ _); by apply Exists_nil in H.
  - exfalso. apply Exists_exists in H as (c & Hin & Hc).
    rewrite Forall_forall in Htail. destruct (Htail c Hin) as (_ & _ & Hm).
    congruence.
Qed.

(** C6: for a job the store does not know, if the job returns or raises
    an exception and the cleanup routine returns, [process_queue_item]
    returns normally, and its calls are exactly: the lookup, the removal
    under the lock, the job, the temp-file cleanup and the
    acknowledgement.  Nothing is published, no signal is set and
    [mark_failed] is not called; the cleanup routine receives the world
    as the job left it. *)
Theorem unknown_job_is_tolerated w o w1 :
  get (store w) job_id = None ->
  run job_id req (claim_pending job_id w) = (o, w1) ->
  reacts o = true ->
  never_raises cleanup ->
  process_queue_item Req run cleanup job_id req (start w)
  = (Return tt,
     {| world := acknowledged (cleanup job_id w1).2;
        trace := [call_store_get job_id; call_lock_acquire;
                  call_pending_remove job_id; call_lock_release;
                  call_run_one_job job_id;
                  call_cleanup_job_temp_files job_id; call_task_done] |}).
Proof.
  intros Hget Hrun Hreacts Hc.
  destruct (process_queue_item_runs Req run cleanup job_id req w o w1 Hrun)
    as (w2 & -> & Hw2).
  rewrite Hget in *. subst w2.
  rewrite finish_never_raises by assumption. simpl.
  destruct o as [[]|e]; simpl in *; [reflexivity|].
  rewrite Hreacts. reflexivity.
Qed.

End worker_claims.

(** ** Properties of [run_job_store_cleanup_loop] *)

Section loop_claims.

Variable Env : Type.
Variable sleep_fn : Z -> LoopWorld Env -> Outcome unit * LoopWorld Env.
Variable seconds : Z.

Let sweep := sweep Env sleep_fn seconds.
Let iteration := iteration Env sleep_fn seconds.
Let run_loop ticks := run_job_store_cleanup_loop Env sleep_fn ticks seconds.

(** One pass, by the outcome of its [try] body. *)
Lemma iteration_runs s :
  iteration s
  = match sweep s with
    | (Return _, s1) => (Return Continue, s1)
    | (Raise e, s1) =>
        if is_CancelledError e then (Return Break, s1)
        else if is_Exception e
        then (Return Continue,
              {| loop_world := loop_world Env s1;
                 loop_trace := loop_trace Env s1
                               ++ [call_log_fn (cleanup_error_msg e)] |})
        else (Raise e, s1)
    end.
Proof.
  unfold iteration, worker_loops.iteration, try_except2, Py.bind, Py.ret, log_fn, loop_call.
  fold sweep. destruct (sweep s) as [[[]|e] s1]; simpl; [reflexivity|].
  destruct (is_CancelledError e); [reflexivity|].
  destruct (is_Exception e); reflexivity.
Qed.

(** The [try] body, by what [sleep_fn] and the store answer. *)
Lemma sweep_runs s :
  sweep s
  = match sleep_fn seconds (loop_world Env s) with
    | (Raise e, w) =>
        (Raise e, {| loop_world := w;
                     loop_trace := loop_trace Env s ++ [call_sleep_fn seconds] |})
    | (Return _, w) =>
        let w' := {| loop_store := (cleanup_old_jobs (loop_store Env w)).2;
                     loop_env := loop_env Env w |} in
        match (cleanup_old_jobs (loop_store Env w)).1 with
        | Raise e =>
            (Raise e,
             {| loop_world := w';
                loop_trace := loop_trace Env s
                              ++ [call_sleep_fn seconds; call_cleanup_old_jobs] |})
        | Return n =>
            (Return tt,
             {| loop_world := w';
                loop_trace :=
                  loop_trace Env s
                  ++ [call_sleep_fn seconds; call_cleanup_old_jobs]
                  ++ (if bool_decide (n > 0)%Z
                      then [call_get_stats;
                            call_log_fn
                              (cleaned_up_msg n
                                 (get_stats (cleanup_old_jobs (loop_store Env w)).2))]
                      else []) |})
        end
    end.
Proof.
  unfold sweep, worker_loops.sweep, await_sleep, store_cleanup_old_jobs, store_get_stats,
    log_fn, loop_call, Py.bind, Py.ret. simpl.
  destruct (sleep_fn seconds (loop_world Env s)) as [[[]|e] w]; simpl;
    [|reflexivity].
  destruct (cleanup_old_jobs (loop_store Env w)) as [[n|e] st']; simpl.
  - destruct (bool_decide (n > 0)%Z); simpl; rewrite <- ?app_assoc;
      simpl; rewrite ?app_nil_r; reflexivity.
  - rewrite <- app_assoc. reflexivity.
Qed.

Lemma run_loop_step n s :
  run_loop (S n) s
  = match iteration s with
    | (Return Continue, s') => run_loop n s'
    | (Return Break, s') => Returned Env s'
    | (Raise e, s') => Unwound Env e s'
    end.
Proof. reflexivity. Qed.

(** The calls of one pass. *)
Lemma iteration_calls s :
  exists delta,
    loop_trace Env (iteration s).2 = loop_trace Env s ++ delta
    /\ (forall n, removed_count sleep_fn seconds s = Some n -> (n > 0)%Z ->
        delta = [call_sleep_fn seconds; call_cleanup_old_jobs; call_get_stats;
                 call_log_fn (cleaned_up_msg n
                                (reported_stats sleep_fn seconds s))])
    /\ (call_get_stats ∈ delta ->
        exists n, removed_count sleep_fn seconds s = Some n /\ (n > 0)%Z)
    /\ (forall msg, call_log_fn msg ∈ delta ->
        (exists n, removed_count sleep_fn seconds s = Some n /\ (n > 0)%Z
                   /\ msg = cleaned_up_msg n
                              (reported_stats sleep_fn seconds s))
        \/ (exists e s1, sweep s = (Raise e, s1) /\ is_Exception e = true
                         /\ msg = cleanup_error_msg e)).
Proof.
  rewrite iteration_runs. pose proof (sweep_runs s) as Hsweep.
  unfold removed_count, reported_stats.
  destruct (sleep_fn seconds (loop_world Env s)) as [[[]|e] w]; simpl in *.
  - destruct (cleanup_old_jobs (loop_store Env w)) as [[n|e] st']; simpl in *.
    + rewrite Hsweep. destruct (bool_decide (n > 0)%Z) eqn:Hn; simpl.
      * apply bool_decide_eq_true in Hn.
        eexists. split; [reflexivity|]. split; [|split].
        -- intros ? [= <-] _. reflexivity.
        -- intros _. by exists n.
        -- intros msg Hin. left. exists n.
           repeat (apply elem_of_cons in Hin as [Heq | Hin];
                   [try discriminate|]).
           ++ by injection Heq as ->.
           ++ by apply elem_of_nil in Hin.
      * apply bool_decide_eq_false in Hn.
        eexists. split; [reflexivity|]. split; [|split].
        -- intros ? [= <-] ?. lia.
        -- intros Hin. exfalso.
           repeat (apply elem_of_cons in Hin as [? | Hin]; [discriminate|]).
           by apply elem_of_nil in Hin.
        -- intros msg Hin. exfalso.
           repeat (apply elem_of_cons in Hin as [? | Hin]; [discriminate|]).
           by apply elem_of_nil in Hin.
    + rewrite Hsweep.
      destruct (is_CancelledError e); [|destruct (is_Exception e) eqn:He];
        simpl; rewrite <- ?app_assoc;
        (eexists; split; [reflexivity|]); (split; [discriminate|]);
        (split;
         [intros Hin; exfalso;
          repeat (apply elem_of_cons in Hin as [? | Hin]; [discriminate|]);
          by apply elem_of_nil in Hin|]);
        intros msg Hin;
        repeat (apply elem_of_cons in Hin as [Heq | Hin]; [try discriminate|]);
        try (by apply elem_of_nil in Hin).
      right. injection Heq as ->. by eexists _, _.
  - rewrite Hsweep.
    destruct (is_CancelledError e); [|destruct (is_Exception e) eqn:He];
      simpl; rewrite <- ?app_assoc;
      (eexists; split; [reflexivity|]); (split; [discriminate|]);
      (split;
       [intros Hin; exfalso;
        repeat (apply elem_of_cons in Hin as [? | Hin]; [discriminate|]);
        by apply elem_of_nil in Hin|]);
      intros msg Hin;
      repeat (apply elem_of_cons in Hin as [Heq | Hin]; [try discriminate|]);
      try (by apply elem_of_nil in Hin).
    right. injection Heq as ->. by eexists _, _.
Qed.

Lemma loop_returns_on_cancellation_only ticks s s' :
  run_loop ticks s = Returned Env s' ->
  exists s0 e, sweep s0 = (Raise e, s') /\ is_CancelledError e = true.
Proof.
  revert s. induction ticks as [|n IH]; intros s; [discriminate|].
  rewrite run_loop_step, iteration_runs.
  destruct (sweep s) as [[[]|e] s1] eqn:Hs; [apply IH|].
  destruct (is_CancelledError e) eqn:Hc.
  - intros [= <-]. by exists s, e.
  - destruct (is_Exception e); [apply IH|discriminate].
Qed.

Lemma loop_unwinds_on_base_exceptions_only ticks s e s' :
  run_loop ticks s = Unwound Env e s' ->
  is_Exception e = false /\ is_CancelledError e = false.
Proof.
  revert s. induction ticks as [|n IH]; intros s; [discriminate|].
  rewrite run_loop_step, iteration_runs.
  destruct (sweep s) as [[[]|e'] s1] eqn:Hs; [apply IH|].
  destruct (is_CancelledError e') eqn:Hc; [discriminate|].
  destruct (is_Exception e') eqn:He; [apply IH|].
  intros [= <- <-]. done.
Qed.

Lemma loop_keeps_running ticks s :
  (forall s0 e s1, sweep s0 = (Raise e, s1) -> is_Exception e = true) ->
  exists s', run_loop ticks s = Running Env s'.
Proof.
  intros Hfail. revert s. induction ticks as [|n IH]; intros s.
  - by exists s.
  - rewrite run_loop_step, iteration_runs.
    destruct (sweep s) as [[[]|e] s1] eqn:Hs; [apply IH|].
    pose proof (Hfail _ _ _ Hs) as He. rewrite He.
    destruct e as [[] msg|]; try discriminate; simpl; apply IH.
Qed.

Lemma run_loop_add a b s :
  run_loop (a + b) s
  = match run_loop a s with
    | Running _ s' => run_loop b s'
    | r => r
    end.
Proof.
  revert s. induction a as [|a IH]; intros s; [reflexivity|].
  change (S a + b) with (S (a + b)). rewrite !run_loop_step.
  destruct (iteration s) as [[[]|e] s1]; [apply IH|reflexivity..].
Qed.

End loop_claims.

Section loop_scenario.

Let run_loop ticks := run_job_store_cleanup_loop nat sleep_counting ticks 60.

Lemma scenario_first_three_ticks :
  run_loop 3 (loop_start scenario_store 0)
  = Running nat
      {| loop_world :=
           {| loop_store :=
                {| record := None; mark_failed_calls := [];
                   cleanup_returns := cleanup_returns scenario_store;
                   cleanup_call_count := 3;
                   stats := stats scenario_store |};
              loop_env := 3 |};
         loop_trace := scenario_calls |}.
Proof. reflexivity. Qed.

(** Once the script of the fake store is at its last entry, every pass
    fails in the same way and the loop goes on. *)
Lemma scenario_later_ticks n s :
  cleanup_returns (loop_store nat (loop_world nat s))
  = cleanup_returns scenario_store ->
  (2 <= cleanup_call_count (loop_store nat (loop_world nat s)))%Z ->
  exists s',
    run_loop n s = Running nat s'
    /\ loop_trace nat s'
       = loop_trace nat s ++ concat (replicate n failing_tick_calls).
Proof.
  revert s. induction n as [|n IH]; intros s Hret Hcount.
  - exists s. simpl. by rewrite app_nil_r.
  - unfold run_loop. simpl.
    unfold iteration at 1. unfold try_except2, Py.bind, Py.ret.
    rewrite sweep_runs. unfold sleep_counting at 1. simpl.
    unfold cleanup_old_jobs. rewrite Hret. simpl.
    rewrite Z.min_r by lia. simpl.
    unfold log_fn, loop_call. simpl.
    match goal with
    | |- context [run_job_store_cleanup_loop _ _ n _ ?s1] =>
        destruct (IH s1) as (s' & Hrun & Htr); [reflexivity|simpl; lia|]
    end.
    exists s'. split; [exact Hrun|].
    rewrite Htr. simpl. rewrite <- !app_assoc. reflexivity.
Qed.

Lemma scenario_keeps_running n :
  exists s',
    run_loop (3 + n) (loop_start scenario_store 0) = Running nat s'
    /\ loop_trace nat s'
       = scenario_calls ++ concat (replicate n failing_tick_calls).
Proof.
  unfold run_loop. rewrite run_loop_add.
  fold (run_loop 3 (loop_start scenario_store 0)).
  rewrite scenario_first_three_ticks.
  match goal with
  | |- context [run_job_store_cleanup_loop _ _ n _ ?s1] =>
      destruct (scenario_later_ticks n s1) as (s' & Hrun & Htr);
        [reflexivity|simpl; lia|]
  end.
  by exists s'.
Qed.

End loop_scenario.

(** C7: in the cleanup loop, (1) a pass whose body raises an exception logs
    it and is followed by the next pass; (2) [get_stats] is called in a pass
    only if [cleanup_old_jobs] returned a positive count in it, and then the
    pass consists of the sleep, the sweep, [get_stats] and the message with
    count and stats, while every other message of a pass is the error
    message of an exception its body raised; (3) the loop returns only after a pass in which
    [CancelledError] was raised, (4) an exception that leaves the loop is
    not an [Exception], and (5) when every failure of a pass is an
    [Exception] the loop is still running after any number of passes.
    (6) With [cleanup_old_jobs] scripted as [0, 3, RuntimeError("boom")],
    the first three passes make the calls [scenario_calls], with one
    [get_stats] and one stats message, both in the second pass, and an error
    message in the third; after any number of further passes the loop is
    still running and has only added error messages. *)
Theorem cleanup_loop_stops_only_on_cancellation
    (Env : Type) (sleep_fn : Z -> LoopWorld Env -> Outcome unit * LoopWorld Env)
    (seconds : Z) :
  (forall s e s1 n,
     sweep Env sleep_fn seconds s = (Raise e, s1) ->
     is_Exception e = true ->
     run_job_store_cleanup_loop Env sleep_fn (S n) seconds s
     = run_job_store_cleanup_loop Env sleep_fn n seconds
         {| loop_world := loop_world Env s1;
            loop_trace := loop_trace Env s1
                          ++ [call_log_fn (cleanup_error_msg e)] |})
  /\ (forall s, exists delta,
        loop_trace Env (iteration Env sleep_fn seconds s).2
        = loop_trace Env s ++ delta
        /\ (forall n, removed_count sleep_fn seconds s = Some n -> (n > 0)%Z ->
            delta = [call_sleep_fn seconds; call_cleanup_old_jobs;
                     call_get_stats;
                     call_log_fn (cleaned_up_msg n
                                    (reported_stats sleep_fn seconds s))])
        /\ (call_get_stats ∈ delta ->
            exists n, removed_count sleep_fn seconds s = Some n /\ (n > 0)%Z)
        /\ (forall msg, call_log_fn msg ∈ delta ->
            (exists n, removed_count sleep_fn seconds s = Some n /\ (n > 0)%Z
                       /\ msg = cleaned_up_msg n
                                  (reported_stats sleep_fn seconds s))
            \/ (exists e s1, sweep Env sleep_fn seconds s = (Raise e, s1)
                             /\ is_Exception e = true
                             /\ msg = cleanup_error_msg e)))
  /\ (forall ticks s s',
        run_job_store_cleanup_loop Env sleep_fn ticks seconds s = Returned Env s' ->
        exists s0 e, sweep Env sleep_fn seconds s0 = (Raise e, s')
                     /\ is_CancelledError e = true)
  /\ (forall ticks s e s',
        run_job_store_cleanup_loop Env sleep_fn ticks seconds s = Unwound Env e s' ->
        is_Exception e = false /\ is_CancelledError e = false)
  /\ ((forall s0 e s1, sweep Env sleep_fn seconds s0 = (Raise e, s1) ->
                       is_Exception e = true) ->
      forall ticks s, exists s',
        run_job_store_cleanup_loop Env sleep_fn ticks seconds s = Running Env s')
  /\ (exists s3,
        run_job_store_cleanup_loop nat sleep_counting 3 60
          (loop_start scenario_store 0) = Running nat s3
        /\ loop_trace nat s3 = scenario_calls
        /\ filter (fun c => is_get_stats c = true) scenario_calls = [call_get_stats])
  /\ (forall n, exists s',
        run_job_store_cleanup_loop nat sleep_counting (3 + n) 60
          (loop_start scenario_store 0) = Running nat s'
        /\ loop_trace nat s'
           = scenario_calls ++ concat (replicate n failing_tick_calls)).
Proof.
  split.
  { intros s e s1 n Hs He.
    change (run_job_store_cleanup_loop Env sleep_fn (S n) seconds s)
      with (match iteration Env sleep_fn seconds s with
            | (Return Continue, s') =>
                run_job_store_cleanup_loop Env sleep_fn n seconds s'
            | (Return Break, s') => Returned Env s'
            | (Raise e, s') => Unwound Env e s'
            end).
    rewrite iteration_runs, Hs, He.
    destruct e as [[] msg|]; try discriminate; reflexivity. }
  split; [apply iteration_calls|].
  split; [apply loop_returns_on_cancellation_only|].
  split; [apply loop_unwinds_on_base_exceptions_only|].
  split; [intros H ticks s; by apply loop_keeps_running|].
  split; [|apply scenario_keeps_running].
  eexists. split; [apply scenario_first_three_ticks|]. split; reflexivity.
Qed.

(** ** Properties of [validate_audio_path] *)

Import posixpath.

Section path_lemmas.

Lemma ltb_trichotomy x y : x <> y -> String.ltb x y = negb (String.ltb y x).
Proof.
  intros Hne. unfold String.ltb. rewrite (String.compare_antisym y x).
  destruct (String.compare x y) eqn:Hc; simpl; try reflexivity.
  apply String.compare_eq_iff in Hc. contradiction.
Qed.

(** The scan of [commonpath] over [min] and [max] of two component lists
    never runs out of bounds and yields their longest common prefix. *)
Lemma common_prefix_min_max a b :
  common_prefix (py_min a [b]) (py_max a [b]) = Some (lcp a b).
Proof.
  unfold py_min, py_max. simpl. revert b.
  induction a as [|x a IH]; intros [|y b]; simpl; try reflexivity.
  destruct (decide (x = y)) as [->|Hne].
  - rewrite decide_True by reflexivity.
    specialize (IH b).
    destruct (list_lt b a), (list_lt a b); simpl;
      rewrite decide_True by reflexivity; rewrite IH; reflexivity.
  - rewrite (decide_False (P := y = x)) by congruence.
    rewrite (ltb_trichotomy x y Hne).
    destruct (String.ltb y x); simpl.
    + by rewrite decide_False by congruence.
    + by rewrite decide_False by congruence.
Qed.

Lemma lcp_prefix_l a b : lcp a b `prefix_of` a.
Proof.
  revert b. induction a as [|x a IH]; intros [|y b]; simpl;
    try apply prefix_nil.
  destruct (decide (x = y)); [|apply prefix_nil].
  by apply prefix_cons.
Qed.

Lemma lcp_is_left a b : lcp a b = a <-> a `prefix_of` b.
Proof.
  revert b. induction a as [|x a IH]; intros b.
  - split; [intros _; apply prefix_nil|by destruct b].
  - destruct b as [|y b]; simpl.
    + split; [discriminate|]. intros [k Hk]. discriminate.
    + destruct (decide (x = y)) as [->|Hne].
      * split.
        -- intros [= H]. apply prefix_cons. by apply IH.
        -- intros H. f_equal. apply IH. by apply prefix_cons_inv_2 in H.
      * split; [discriminate|]. intros H.
        apply prefix_cons_inv_1 in H. contradiction.
Qed.

Lemma string_app_length (s t : string) :
  String.length (s +:+ t) = String.length s + String.length t.
Proof. induction s as [|c s IH]; simpl; [reflexivity|by rewrite IH]. Qed.

Lemma join_comps_cons x l :
  l <> [] -> join_comps (x :: l) = x +:+ "/" +:+ join_comps l.
Proof. destruct l; [done|reflexivity]. Qed.

Lemma join_comps_positive y k :
  y <> "" -> 0 < String.length (join_comps (y :: k)).
Proof.
  intros Hy. destruct y as [|ch y]; [done|].
  destruct k; simpl; lia.
Qed.

(** Joining more non-empty components gives a longer string. *)
Lemma join_comps_longer c k :
  Forall (fun x => x <> "") (c ++ k) -> k <> [] ->
  String.length (join_comps c) < String.length (join_comps (c ++ k)).
Proof.
  induction c as [|x c IH]; intros Hne Hk.
  - destruct k as [|y k]; [done|].
    apply Forall_cons in Hne as [Hy _].
    by apply join_comps_positive.
  - apply Forall_cons in Hne as [Hx Hne]. specialize (IH Hne Hk).
    change ((x :: c) ++ k) with (x :: (c ++ k)).
    rewrite (join_comps_cons x (c ++ k)) by (destruct c, k; done).
    destruct c as [|z c].
    + cbn [join_comps String.concat app] in *.
      rewrite !string_app_length. simpl in *. lia.
    + rewrite (join_comps_cons x (z :: c)) by done.
      rewrite !string_app_length. lia.
Qed.

Lemma join_comps_prefix_inj c a :
  c `prefix_of` a -> Forall (fun x => x <> "") a ->
  join_comps c = join_comps a -> c = a.
Proof.
  intros [k ->] Hne Heq. destruct k as [|y k]; [by rewrite app_nil_r|].
  pose proof (join_comps_longer c (y :: k) Hne) as Hlt.
  rewrite Heq in Hlt. specialize (Hlt ltac:(done)). lia.
Qed.

Lemma components_nonempty p : Forall (fun x => x <> "") (components p).
Proof.
  unfold components. apply Forall_forall. intros x Hx.
  apply list_elem_of_filter in Hx. tauto.
Qed.

Lemma prefix_empty s : String.prefix "" s = true.
Proof. by destruct s. Qed.

Lemma canonical_abs_isabs p : canonical_abs p -> isabs p = true.
Proof.
  unfold canonical_abs, isabs, startswith, sep. intros ->. simpl.
  destruct (ascii_dec "/" "/"); [apply prefix_empty|done].
Qed.

(** The membership test of the validator decides [path_inside]. *)
Lemma is_in_temp_spec t q :
  canonical_abs t -> isabs q = true ->
  is_in_temp t q = Return (bool_decide (path_inside t q)).
Proof.
  intros Ht Hq. pose proof (canonical_abs_isabs t Ht) as Habs.
  unfold canonical_abs in Ht.
  unfold is_in_temp, commonpath. cbn [forallb fmap list_fmap].
  rewrite Hq, Habs. rewrite bool_decide_eq_true_2 by reflexivity.
  cbn [andb]. rewrite common_prefix_min_max. f_equal.
  apply bool_decide_ext. unfold path_inside.
  split.
  - intros Heq. apply lcp_is_left.
    rewrite Ht in Heq at 2. unfold sep in Heq.
    injection Heq as Heq.
    apply join_comps_prefix_inj;
      [apply lcp_prefix_l|apply components_nonempty|exact Heq].
  - intros H. apply lcp_is_left in H. rewrite H.
    unfold sep. symmetry. exact Ht.
Qed.

End path_lemmas.

Section path_claims.

Variable os : OsEnv.

Let system_temp := realpath os (gettempdir os).

(** The validator, case by case, for an operating system whose
    [realpath] answers canonical absolute paths. *)
Lemma validate_audio_path_cases p :
  canonical_abs system_temp -> isabs (realpath os p) = true -> p <> "" ->
  validate_audio_path os (Some p)
  = if bool_decide (path_inside system_temp (realpath os p))
    then Return (Some (realpath os p))
    else if isabs p
    then Raise (HTTPException 400 "absolute audio file paths are not allowed")
    else if bool_decide (".." ∈ split (normpath p))
    then Raise (HTTPException 400
                  "path traversal in audio file paths is not allowed")
    else Return (Some p).
Proof.
  intros Ht Hq Hp. unfold validate_audio_path.
  rewrite bool_decide_eq_false_2 by exact Hp.
  fold system_temp. rewrite is_in_temp_spec by assumption.
  reflexivity.
Qed.

End path_claims.

(** C8, as amended: the path is first resolved; when the resolved path
    lies inside the resolved temporary directory, the resolved path is
    returned, which is the input itself when the input is its own real
    path.  Otherwise an absolute path is rejected with status 400, a
    relative path whose normalised form still has a [..] component is
    rejected with status 400, and any other relative path is returned
    unchanged.  With working directory [/home/user], temporary directory
    [/tmp] and no symbolic links: ["/tmp/foo/x.wav"] and ["clip.wav"] are
    returned unchanged and ["../x.wav"] is rejected. *)
Theorem audio_path_is_checked_after_resolution (os : OsEnv) :
  canonical_abs (realpath os (gettempdir os)) ->
  (forall p,
     isabs (realpath os p) = true -> p <> "" ->
     (path_inside (realpath os (gettempdir os)) (realpath os p) ->
      validate_audio_path os (Some p) = Return (Some (realpath os p)))
     /\ (path_inside (realpath os (gettempdir os)) (realpath os p) ->
         realpath os p = p ->
         validate_audio_path os (Some p) = Return (Some p))
     /\ (~ path_inside (realpath os (gettempdir os)) (realpath os p) ->
         isabs p = true ->
         validate_audio_path os (Some p)
         = Raise (HTTPException 400 "absolute audio file paths are not allowed"))
     /\ (~ path_inside (realpath os (gettempdir os)) (realpath os p) ->
         isabs p = false -> ".." ∈ split (normpath p) ->
         validate_audio_path os (Some p)
         = Raise (HTTPException 400
                    "path traversal in audio file paths is not allowed"))
     /\ (~ path_inside (realpath os (gettempdir os)) (realpath os p) ->
         isabs p = false -> ".." ∉ split (normpath p) ->
         validate_audio_path os (Some p) = Return (Some p)))
  /\ (isabs (realpath os "../x.wav") = true ->
      ~ path_inside (realpath os (gettempdir os)) (realpath os "../x.wav") ->
      validate_audio_path os (Some "../x.wav")
      = Raise (HTTPException 400
                 "path traversal in audio file paths is not allowed"))
  /\ (isabs (realpath os "clip.wav") = true ->
      ~ path_inside (realpath os (gettempdir os)) (realpath os "clip.wav") ->
      validate_audio_path os (Some "clip.wav") = Return (Some "clip.wav"))
  /\ validate_audio_path home_env (Some "/tmp/foo/x.wav")
     = Return (Some "/tmp/foo/x.wav")
  /\ validate_audio_path home_env (Some "clip.wav") = Return (Some "clip.wav")
  /\ validate_audio_path home_env (Some "../x.wav")
     = Raise (HTTPException 400
                "path traversal in audio file paths is not allowed").
Proof.
  intros Ht.
  assert (Hgen : forall p,
     isabs (realpath os p) = true -> p <> "" ->
     (path_inside (realpath os (gettempdir os)) (realpath os p) ->
      validate_audio_path os (Some p) = Return (Some (realpath os p)))
     /\ (path_inside (realpath os (gettempdir os)) (realpath os p) ->
         realpath os p = p ->
         validate_audio_path os (Some p) = Return (Some p))
     /\ (~ path_inside (realpath os (gettempdir os)) (realpath os p) ->
         isabs p = true ->
         validate_audio_path os (Some p)
         = Raise (HTTPException 400 "absolute audio file paths are not allowed"))
     /\ (~ path_inside (realpath os (gettempdir os)) (realpath os p) ->
         isabs p = false -> ".." ∈ split (normpath p) ->
         validate_audio_path os (Some p)
         = Raise (HTTPException 400
                    "path traversal in audio file paths is not allowed"))
     /\ (~ path_inside (realpath os (gettempdir os)) (realpath os p) ->
         isabs p = false -> ".." ∉ split (normpath p) ->
         validate_audio_path os (Some p) = Return (Some p))).
  { intros p Hq Hp. rewrite (validate_audio_path_cases os p Ht Hq Hp).
    repeat split.
    - intros Hin. by rewrite bool_decide_eq_true_2.
    - intros Hin Hsame. rewrite bool_decide_eq_true_2 by done. by rewrite Hsame.
    - intros Hout Habs. rewrite bool_decide_eq_false_2 by done. by rewrite Habs.
    - intros Hout Hrel Hdots. rewrite bool_decide_eq_false_2 by done.
      rewrite Hrel. by rewrite bool_decide_eq_true_2.
    - intros Hout Hrel Hdots. rewrite bool_decide_eq_false_2 by done.
      rewrite Hrel. by rewrite bool_decide_eq_false_2. }
  split; [exact Hgen|].
  split.
  { intros Hq Hout.
    destruct (Hgen "../x.wav" Hq ltac:(discriminate)) as (_ & _ & _ & H & _).
    apply H; [exact Hout|reflexivity|].
    apply (bool_decide_unpack _). vm_compute. exact I. }
  split.
  { intros Hq Hout.
    destruct (Hgen "clip.wav" Hq ltac:(discriminate)) as (_ & _ & _ & _ & H).
    apply H; [exact Hout|reflexivity|].
    apply (bool_decide_unpack _). vm_compute. exact I. }
  repeat split; reflexivity.
Qed.

(** Against C8 as stated: with working directory [/home/user] the relative
    path ["a/../x.wav"], which has a [..] component, is accepted; with
    working directory [/tmp/work] the path ["../x.wav"] is accepted and
    ["clip.wav"] is returned in resolved form; the absolute path
    ["/tmp/foo/../x.wav"] is accepted in resolved form. *)
Lemma traversal_segment_is_not_always_rejected :
  ".." ∈ split "a/../x.wav"
  /\ isabs "a/../x.wav" = false
  /\ validate_audio_path home_env (Some "a/../x.wav")
     = Return (Some "a/../x.wav")
  /\ validate_audio_path tmp_work_env (Some "../x.wav")
     = Return (Some "/tmp/x.wav")
  /\ validate_audio_path tmp_work_env (Some "clip.wav")
     = Return (Some "/tmp/work/clip.wav")
  /\ validate_audio_path home_env (Some "/tmp/foo/../x.wav")
     = Return (Some "/tmp/x.wav").
Proof.
  split; [apply (bool_decide_unpack _); vm_compute; exact I|].
  repeat split; reflexivity.
Qed.

(** C10: whenever the resolved path lies inside the resolved temporary
    directory, the validator returns the resolved path, whether the path as
    given is absolute or relative and whether or not it has [..]
    components; [None] and the empty string give [None]. *)
Theorem temp_membership_takes_precedence (os : OsEnv) :
  (forall p,
     canonical_abs (realpath os (gettempdir os)) ->
     isabs (realpath os p) = true -> p <> "" ->
     path_inside (realpath os (gettempdir os)) (realpath os p) ->
     validate_audio_path os (Some p) = Return (Some (realpath os p)))
  /\ validate_audio_path os None = Return None
  /\ validate_audio_path os (Some "") = Return None.
Proof.
  split; [|split; reflexivity].
  intros p Ht Hq Hp Hin.
  rewrite (validate_audio_path_cases os p Ht Hq Hp).
  by rewrite bool_decide_eq_true_2.
Qed.

(** ** [save_upload_to_temp]: the upload is not closed on every path *)

(** C9: the claim fails on the code.  [save_upload_to_temp(upload,
    prefix="nodir/x")], on a machine whose temporary directory [/tmp] has
    no directory [nodir], raises the [FileNotFoundError] of [mkstemp]:
    [mkstemp] is called before the [try] is entered, so neither the
    [except] nor the [finally] clause runs, nothing is read, and
    [upload.close()] is not called: the upload is left open. *)
Theorem upload_stays_open_when_temp_file_cannot_be_created :
  exists s',
    save_upload_to_temp 3 "nodir/x" (sample_io sample_upload)
    = Some (Raise (PyExc FileNotFoundError
                     "[Errno 2] No such file or directory: '/tmp/nodir/x_k3x9.wav'"),
            s')
    /\ io_trace s' = [call_mkstemp "nodir/x_" ".wav"]
    /\ upload (io s') = sample_upload
    /\ closed (upload (io s')) = false
    /\ files (io s') = files (io (sample_io sample_upload)).
Proof.
  eexists. split; [vm_compute; reflexivity|].
  repeat split; reflexivity.
Qed.

(** ** The theorems at work on concrete inputs *)

(** C1 on a job that succeeds with a result: [result], then [done], then
    the signal. *)
Lemma done_is_published_once_and_last_witness :
  exists t0 before t2 w2,
    trace (process_queue_item unit run_succeeds cleanup_nothing "j3" tt
             (start (world_with listening_record ["j3"]))).2
    = t0 ++ (call_put 0 <$> (before ++ [EvDone])) ++ t2
    /\ (EvDone ∉ before)
    /\ Forall (fun c => is_put c = false /\ is_done_event_set c = false) t0
    /\ Forall (fun c => is_put c = false) t2
    /\ filter (fun c => is_done_event_set c = true) t2 = [call_done_event_set 0]
    /\ world (process_queue_item unit run_succeeds cleanup_nothing "j3" tt
                (start (world_with listening_record ["j3"]))).2
       = acknowledged w2
    /\ progress_queue (heap w2 0) = Some ([] ++ before ++ [EvDone]).
Proof.
  apply (done_is_published_once_and_last unit run_succeeds cleanup_nothing
           "j3" tt (world_with listening_record ["j3"]) 0 (Return tt)
           (run_succeeds "j3" tt
              (claim_pending "j3" (world_with listening_record ["j3"]))).2 []);
    reflexivity.
Defined.

(** C2 on the scenario of job ["j2"]. *)
Lemma failure_is_marked_and_notified_witness :
  exists s,
    process_queue_item unit run_boom cleanup_nothing "j2" tt
      (start (world_with listening_record ["j2"])) = (Return tt, s)
    /\ trace s = [call_store_get "j2"; call_lock_acquire;
                  call_pending_remove "j2"; call_lock_release;
                  call_run_one_job "j2"; call_mark_failed "j2" "boom";
                  call_put 0 (EvError "boom"); call_put 0 EvDone;
                  call_done_event_set 0;
                  call_cleanup_job_temp_files "j2"; call_task_done]
    /\ status (heap (world s) 0) = "failed"
    /\ error (heap (world s) 0) = Some "boom"
    /\ progress_queue (heap (world s) 0) = Some [EvError "boom"; EvDone]
    /\ done_event (heap (world s) 0) = Some {| was_set := true |}
    /\ mark_failed_calls (store (world s)) = [("j2", "boom")]
    /\ pending_ids (app_state (world s)) = []
    /\ task_done_calls (job_queue (app_state (world s))) = 1.
Proof.
  destruct (failure_is_marked_and_notified unit run_boom cleanup_nothing
              "j2" tt (world_with listening_record ["j2"]) 0
              (PyExc RuntimeError "boom")
              (claim_pending "j2" (world_with listening_record ["j2"])))
    as (w2 & Hrun & Hmark & Hfailed & Hqueue & Hsignal & Happ);
    [reflexivity | reflexivity | reflexivity | reflexivity
     | intros ? ?; reflexivity |].
  destruct (Hfailed eq_refl) as [Hstatus Herror].
  eexists. split; [exact Hrun|]. simpl.
  rewrite Hstatus, Herror, Hqueue, Hsignal, Hmark, Happ.
  repeat split; reflexivity.
Defined.

(** C3 on a job that raises after its record was marked [succeeded]. *)
Lemma terminal_status_is_not_overwritten_witness :
  exists w2 t,
    process_queue_item unit run_boom cleanup_nothing "j4" tt
      (start (world_with {| status := "succeeded";
                            result := Some [("audio_path", "/tmp/out.wav")];
                            error := None; progress_queue := Some [];
                            done_event := None |} ["j4"]))
    = finish cleanup_nothing "j4"
        (guarded_outcome (Raise (PyExc RuntimeError "boom")))
        {| world := w2; trace := t |}
    /\ Forall (fun c => is_mark_failed c = false)
         (trace (process_queue_item unit run_boom cleanup_nothing "j4" tt
                   (start (world_with
                             {| status := "succeeded";
                                result := Some [("audio_path", "/tmp/out.wav")];
                                error := None; progress_queue := Some [];
                                done_event := None |} ["j4"]))).2)
    /\ status (heap w2 0) = "succeeded".
Proof.
  destruct (terminal_status_is_not_overwritten unit run_boom cleanup_nothing
              "j4" tt
              (world_with {| status := "succeeded";
                             result := Some [("audio_path", "/tmp/out.wav")];
                             error := None; progress_queue := Some [];
                             done_event := None |} ["j4"])
              0 (PyExc RuntimeError "boom")
              (claim_pending "j4"
                 (world_with {| status := "succeeded";
                                result := Some [("audio_path", "/tmp/out.wav")];
                                error := None; progress_queue := Some [];
                                done_event := None |} ["j4"])))
    as (w2 & t & Hrun & Hnone & _ & Hstatus & _);
    [reflexivity | reflexivity | left; reflexivity |].
  exists w2, t. split; [exact Hrun|]. split; [exact Hnone|].
  rewrite Hstatus. reflexivity.
Defined.

(** C4 on the scenario of job ["j1"]: a record without channel or signal. *)
Lemma cleanup_and_ack_once_on_every_path_witness :
  exists t w2,
    (process_queue_item unit run_succeeds cleanup_nothing "j1" tt
       (start (world_with {| status := "queued"; result := None;
                             error := None; progress_queue := None;
                             done_event := None |} ["j1"]))).2
    = {| world := acknowledged (cleanup_nothing "j1" w2).2;
         trace := t ++ [call_cleanup_job_temp_files "j1"; call_task_done] |}
    /\ Forall (fun c => is_cleanup_or_ack c = false) t.
Proof.
  apply (cleanup_and_ack_once_on_every_path unit run_succeeds cleanup_nothing
           "j1" tt).
  intros ? ?. reflexivity.
Defined.

(** C5 on a job whose id has already left the pending list. *)
Lemma absent_pending_id_is_ignored_witness :
  claim_job "j5" (start (world_with listening_record ["j6"]))
  = (Return tt,
     {| world := world_with listening_record ["j6"];
        trace := [call_lock_acquire; call_pending_remove "j5";
                  call_lock_release] |})
  /\ (Exists (fun c => is_mark_failed c = true)
        (trace (process_queue_item unit run_succeeds cleanup_nothing "j5" tt
                  (start (world_with listening_record ["j6"]))).2) ->
      exists e, Return tt = Raise e /\ is_Exception e = true).
Proof.
  destruct (absent_pending_id_is_ignored unit run_succeeds cleanup_nothing
              "j5" tt (world_with listening_record ["j6"]) [] (Return tt)
              (run_succeeds "j5" tt (world_with listening_record ["j6"])).2)
    as (Hclaim & _ & Hmark);
    [apply (bool_decide_unpack _); vm_compute; exact I | reflexivity |].
  split; [exact Hclaim | exact Hmark].
Defined.

(** C6 on a job the store does not know, whose body raises. *)
Lemma unknown_job_is_tolerated_witness :
  process_queue_item unit run_boom cleanup_nothing "j7" tt
    (start (world_without_record ["j7"]))
  = (Return tt,
     {| world := acknowledged
                   (cleanup_nothing "j7"
                      (claim_pending "j7" (world_without_record ["j7"]))).2;
        trace := [call_store_get "j7"; call_lock_acquire;
                  call_pending_remove "j7"; call_lock_release;
                  call_run_one_job "j7";
                  call_cleanup_job_temp_files "j7"; call_task_done] |}).
Proof.
  apply (unknown_job_is_tolerated unit run_boom cleanup_nothing "j7" tt
           (world_without_record ["j7"]) (Raise (PyExc RuntimeError "boom")));
    [reflexivity | reflexivity | reflexivity | intros ? ?; reflexivity].
Defined.

(** C7 on the scenario with a [sleep_fn] that is cancelled in its fourth
    call: the loop returns, and it does so in a pass whose body raised
    [CancelledError]. *)
Lemma cleanup_loop_stops_only_on_cancellation_witness :
  run_job_store_cleanup_loop nat sleep_cancelled_after_three 4 60
    (loop_start scenario_store 0) = Returned nat cancelled_scenario_end
  /\ exists s0 e,
       sweep nat sleep_cancelled_after_three 60 s0
       = (Raise e, cancelled_scenario_end)
       /\ is_CancelledError e = true.
Proof.
  split; [reflexivity|].
  apply (proj1 (proj2 (proj2
           (cleanup_loop_stops_only_on_cancellation
              nat sleep_cancelled_after_three 60)))
           4 (loop_start scenario_store 0)).
  reflexivity.
Defined.

(** C8, as amended, on an absolute path outside the temporary directory. *)
Lemma audio_path_is_checked_after_resolution_witness :
  validate_audio_path home_env (Some "/etc/passwd")
  = Raise (HTTPException 400 "absolute audio file paths are not allowed").
Proof.
  destruct (audio_path_is_checked_after_resolution home_env eq_refl)
    as (Hgen & _).
  destruct (Hgen "/etc/passwd" eq_refl ltac:(discriminate))
    as (_ & _ & Habs & _).
  apply Habs; [|reflexivity].
  apply (bool_decide_unpack _). vm_compute. exact I.
Defined.

(** C10 on a relative path with a [..] component that resolves into the
    temporary directory. *)
Lemma temp_membership_takes_precedence_witness :
  validate_audio_path tmp_work_env (Some "../x.wav") = Return (Some "/tmp/x.wav").
Proof.
  apply (proj1 (temp_membership_takes_precedence tmp_work_env) "../x.wav");
    [reflexivity | reflexivity | discriminate |].
  apply (bool_decide_unpack _). vm_compute. exact I.
Defined.
